(** * generate_drum_midi.py: a shallow embedding and its verified properties

    The script turns a drum mapping (note, name) into a MIDI trigger track and
    a timing side file.  The embedding below follows [generate_drum_midi.py]
    function by function:

    - Python [float] is IEEE-754 binary64.  It is modelled by the
      specification floats of the standard library ([spec_float] with
      [prec = 53], [emax = 1024]), whose operations are the ones the kernel's
      primitive floats are specified against.
    - Python [int] is unbounded: [Z].
    - Python exceptions raised by the arithmetic of the script are values of
      [exn]; a computation that can raise returns a [result].
    - Python [str] is modelled as [string] (a sequence of 8-bit characters);
      [str.lower] is modelled on ASCII text. *)

From Stdlib Require Import ZArith List Lia Lqa Bool String Ascii QArith Qabs.
From Stdlib Require Import Permutation Sorted.
From Stdlib Require Import Floats DecimalString DecimalPos.
Import ListNotations.

Local Open Scope Z_scope.

(** ** Exceptions *)

Inductive exn : Type :=
| ValueError
| OverflowError
| ZeroDivisionError.

Inductive result (A : Type) : Type :=
| Ok (a : A)
| Raise (e : exn).

Arguments Ok {A} a.
Arguments Raise {A} e.

Definition bind {A B : Type} (r : result A) (k : A -> result B) : result B :=
  match r with
  | Ok a => k a
  | Raise e => Raise e
  end.

Notation "x <- c ;; k" := (bind c (fun x => k))
  (at level 61, c at next level, right associativity).

(** ** Python floats *)

Module PyFloat.

Definition prec : Z := 53.
Definition emax : Z := 1024.

Definition float : Type := spec_float.

Definition mul (x y : float) : float := SFmul prec emax x y.
Definition add (x y : float) : float := SFadd prec emax x y.

(** An integer as an exact (possibly non-canonical) binary number. *)
Definition exact_of_int (z : Z) : float :=
  match z with
  | Z0 => S754_zero false
  | Zpos p => S754_finite false p 0
  | Zneg p => S754_finite true p 0
  end.

Definition is_overflow (x : float) : bool :=
  match x with
  | S754_infinity _ => true
  | _ => false
  end.

(** [float(z)], the conversion Python applies to an [int] operand that meets
    a [float] operand: round to nearest even, [OverflowError] when the
    integer is out of range. *)
Definition of_int (z : Z) : result float :=
  let x := binary_normalize prec emax z 0 false in
  if is_overflow x then Raise OverflowError else Ok x.

(** [a / b] on two [int]s: the correctly rounded quotient. *)
Definition int_truediv (a b : Z) : result float :=
  if b =? 0 then Raise ZeroDivisionError
  else
    let x := SFdiv prec emax (exact_of_int a) (exact_of_int b) in
    if is_overflow x then Raise OverflowError else Ok x.

(** [x * n] with [x] a [float] and [n] an [int]. *)
Definition mul_int (x : float) (n : Z) : result float :=
  y <- of_int n ;; Ok (mul x y).

(** Truncation toward zero of a finite float. *)
Definition trunc (s : bool) (m : positive) (e : Z) : Z :=
  cond_Zopp s (Z.shiftl (Zpos m) e).

(** [int(x)] on a [float]. *)
Definition to_int (x : float) : result Z :=
  match x with
  | S754_zero _ => Ok 0
  | S754_finite s m e => Ok (trunc s m e)
  | S754_infinity _ => Raise OverflowError
  | S754_nan => Raise ValueError
  end.

Definition is_finite (x : float) : bool :=
  match x with
  | S754_zero _ | S754_finite _ _ _ => true
  | _ => false
  end.

(** [x > 0] *)
Definition gt_zero (x : float) : bool := SFltb (S754_zero false) x.

(** The sign bit is clear: [+0.0], a positive number or [+inf]. *)
Definition sign_clear (x : float) : bool :=
  match x with
  | S754_zero s | S754_infinity s | S754_finite s _ _ => negb s
  | S754_nan => false
  end.

(** The real number a finite float denotes, as an exact rational. *)
Definition to_Q (x : float) : Q :=
  match x with
  | S754_finite s m e =>
      match e with
      | Z0 => inject_Z (cond_Zopp s (Zpos m))
      | Zpos n => inject_Z (cond_Zopp s (Zpos m * 2 ^ Zpos n))
      | Zneg n => Qmake (cond_Zopp s (Zpos m)) (2 ^ n)%positive
      end
  | _ => 0%Q
  end.

(** The literals of the script. *)
Definition f0_1 : float := S754_finite false 7205759403792794 (-56).
Definition f1_0 : float := S754_finite false 4503599627370496 (-52).
Definition f2_0 : float := S754_finite false 4503599627370496 (-51).
Definition f2_5 : float := S754_finite false 5629499534213120 (-51).
Definition f3_0 : float := S754_finite false 6755399441055744 (-51).
Definition f4_0 : float := S754_finite false 4503599627370496 (-50).
Definition f5_0 : float := S754_finite false 5629499534213120 (-50).

End PyFloat.

(** ** Python strings *)

Module PyStr.

Local Open Scope string_scope.

Definition is_upper (c : ascii) : bool :=
  let n := nat_of_ascii c in (65 <=? n)%nat && (n <=? 90)%nat.

Definition is_lower (c : ascii) : bool :=
  let n := nat_of_ascii c in (97 <=? n)%nat && (n <=? 122)%nat.

Definition lower_char (c : ascii) : ascii :=
  if is_upper c then ascii_of_nat (nat_of_ascii c + 32) else c.

Definition upper_char (c : ascii) : ascii :=
  if is_lower c then ascii_of_nat (nat_of_ascii c - 32) else c.

(** [s.lower()] *)
Fixpoint lower (s : string) : string :=
  match s with
  | EmptyString => EmptyString
  | String c s' => String (lower_char c) (lower s')
  end.

(** [s.upper()] *)
Fixpoint upper (s : string) : string :=
  match s with
  | EmptyString => EmptyString
  | String c s' => String (upper_char c) (upper s')
  end.

(** [s.startswith(w)] *)
Fixpoint startswith (w s : string) : bool :=
  match w, s with
  | EmptyString, _ => true
  | String _ _, EmptyString => false
  | String a w', String b s' => Ascii.eqb a b && startswith w' s'
  end.

(** [w in s]: [w] occurs in [s] as a contiguous substring. *)
Fixpoint contains (w s : string) : bool :=
  startswith w s ||
  match s with
  | EmptyString => false
  | String _ s' => contains w s'
  end.

(** [any(word in s for word in words)] *)
Definition any_in (words : list string) (s : string) : bool :=
  existsb (fun word => contains word s) words.

End PyStr.

(** ** [get_duration_for_sound] *)

Definition get_duration_for_sound (name : string) : PyFloat.float :=
  let name_lower := PyStr.lower name in
  if PyStr.any_in ["crash"; "china"; "splash"]%string name_lower then PyFloat.f5_0
  else if PyStr.any_in ["ride"; "cymbal"]%string name_lower then PyFloat.f4_0
  else if PyStr.contains "open" name_lower && PyStr.contains "hat" name_lower
       then PyFloat.f3_0
  else if PyStr.contains "hat" name_lower then PyFloat.f2_0
  else if PyStr.contains "tom" name_lower || PyStr.contains "floor" name_lower
       then PyFloat.f2_5
  else if PyStr.any_in
            ["kick"; "snare"; "clap"; "stick"; "cowbell"; "claves"]%string name_lower
       then PyFloat.f2_0
  else if PyStr.any_in ["tambourine"; "shaker"; "vibraslap"]%string name_lower
       then PyFloat.f2_5
  else PyFloat.f2_0.

(** The classifier as the specification words it: an ordered table of
    (predicate on the lower-cased name, duration) rules, the first rule whose
    predicate holds decides, and a default when none does. *)
Module ClassifierSpec.

Definition rule : Type := ((string -> bool) * PyFloat.float)%type.

Definition has_any (words : list string) : string -> bool :=
  fun s => existsb (fun w => PyStr.contains w s) words.

Definition has_all (words : list string) : string -> bool :=
  fun s => forallb (fun w => PyStr.contains w s) words.

Definition rules : list rule :=
  [ (has_any ["crash"; "china"; "splash"]%string, PyFloat.f5_0);
    (has_any ["ride"; "cymbal"]%string, PyFloat.f4_0);
    (has_all ["open"; "hat"]%string, PyFloat.f3_0);
    (has_any ["hat"]%string, PyFloat.f2_0);
    (has_any ["tom"; "floor"]%string, PyFloat.f2_5);
    (has_any ["kick"; "snare"; "clap"; "stick"; "cowbell"; "claves"]%string,
     PyFloat.f2_0);
    (has_any ["tambourine"; "shaker"; "vibraslap"]%string, PyFloat.f2_5) ].

Definition default : PyFloat.float := PyFloat.f2_0.

Fixpoint first_match (rs : list rule) (s : string) : PyFloat.float :=
  match rs with
  | [] => default
  | (p, d) :: rs' => if p s then d else first_match rs' s
  end.

Definition classify (name : string) : PyFloat.float :=
  first_match rules (PyStr.lower name).

End ClassifierSpec.

(** ** [list.sort(key=...)]

    Python's sort is stable and compares keys with [<] only.  The result of a
    stable sort is determined by the input, so it is modelled by the stable
    insertion sort: an element is placed in front of the first element whose
    key is not smaller than its own. *)

Section StableSort.

Context {A K : Type}.
Variable key : A -> K.
Variable ltb : K -> K -> bool.

Fixpoint insert_by (x : A) (l : list A) : list A :=
  match l with
  | [] => [x]
  | y :: l' => if ltb (key y) (key x) then y :: insert_by x l' else x :: y :: l'
  end.

Fixpoint sort_by (l : list A) : list A :=
  match l with
  | [] => []
  | x :: l' => insert_by x (sort_by l')
  end.

End StableSort.

(** ** [int(s)] on a string *)

Module PyInt.

Definition is_space (c : ascii) : bool :=
  let n := nat_of_ascii c in
  ((9 <=? n)%nat && (n <=? 13)%nat) || ((28 <=? n)%nat && (n <=? 32)%nat).

Fixpoint lstrip (l : list ascii) : list ascii :=
  match l with
  | c :: l' => if is_space c then lstrip l' else l
  | [] => []
  end.

Definition strip (l : list ascii) : list ascii :=
  rev (lstrip (rev (lstrip l))).

Definition digit_val (c : ascii) : option Z :=
  let n := nat_of_ascii c in
  if (48 <=? n)%nat && (n <=? 57)%nat then Some (Z.of_nat (n - 48)) else None.

(** Decimal digits, single underscores allowed between two digits. *)
Fixpoint parse_digits (l : list ascii) (acc : Z) (after_digit : bool) : option Z :=
  match l with
  | [] => if after_digit then Some acc else None
  | c :: l' =>
      if Ascii.eqb c "_"%char
      then if after_digit then parse_digits l' acc false else None
      else match digit_val c with
           | Some d => parse_digits l' (10 * acc + d) true
           | None => None
           end
  end.

Definition parse_signed (l : list ascii) : option Z :=
  match l with
  | c :: l' =>
      if Ascii.eqb c "-"%char then option_map Z.opp (parse_digits l' 0 false)
      else if Ascii.eqb c "+"%char then parse_digits l' 0 false
      else parse_digits l 0 false
  | [] => None
  end.

(** [int(s)]: surrounding white space is ignored, then an optional sign and
    a decimal numeral; anything else is a [ValueError].  (ASCII text; the
    interpreter's configurable cap on the number of digits is not
    modelled.) *)
Definition of_str (s : string) : result Z :=
  match parse_signed (strip (list_ascii_of_string s)) with
  | Some z => Ok z
  | None => Raise ValueError
  end.

End PyInt.

(** ** [load_drum_mapping]

    The value [json.load] hands to the function is either a list of records
    with a ["note"] and a ["name"] field, or a dictionary from note strings to
    names (a Python [dict] iterates in insertion order: an association list).
    A drum is the tuple [(note, name, duration)]. *)

Record item : Type := { item_note : Z; item_name : string }.

Inductive mapping : Type :=
| ArrayFormat (items : list item)
| ObjectFormat (entries : list (string * string)).

Record drum : Type := mk_drum
  { drum_note : Z; drum_name : string; base_duration : PyFloat.float }.

(** The loop of the array branch: one [append] per item. *)
Definition load_array (items : list item) : list drum :=
  fold_left
    (fun drum_list it =>
       let note := item_note it in
       let name := item_name it in
       let duration := get_duration_for_sound name in
       drum_list ++ [mk_drum note name duration])
    items [].

(** The loop of the object branch: [int(note_str)] may raise. *)
Fixpoint load_object (entries : list (string * string)) (drum_list : list drum)
  : result (list drum) :=
  match entries with
  | [] => Ok drum_list
  | (note_str, name) :: rest =>
      note <- PyInt.of_str note_str ;;
      let duration := get_duration_for_sound name in
      load_object rest (drum_list ++ [mk_drum note name duration])
  end.

Definition load_drum_mapping (m : mapping) : result (list drum) :=
  match m with
  | ArrayFormat items => Ok (load_array items)
  | ObjectFormat entries =>
      drum_list <- load_object entries [] ;;
      Ok (sort_by drum_note Z.ltb drum_list)
  end.

(** ** Formatting: [f"{z}"] and [f"{x:.4f}"] *)

Module PyFormat.

Local Open Scope string_scope.

(** [str(z)] *)
Definition str_of_int (z : Z) : string := NilZero.string_of_int (Z.to_int z).

(** [n / d] rounded to the nearest integer, ties to even ([0 < d], [0 <= n]). *)
Definition div_half_even (n d : Z) : Z :=
  let q := n / d in
  let r := n mod d in
  match 2 * r ?= d with
  | Lt => q
  | Gt => q + 1
  | Eq => if Z.even q then q else q + 1
  end.

(** The magnitude [m * 2^e] in units of [10^-4], correctly rounded. *)
Definition scaled_4 (m : positive) (e : Z) : Z :=
  match e with
  | Zneg n => div_half_even (Zpos m * 10000) (Zpos (2 ^ n))
  | _ => Zpos m * 2 ^ e * 10000
  end.

Definition digit_char (d : Z) : ascii := ascii_of_nat (48 + Z.to_nat d).

Definition four_digits (n : Z) : string :=
  String (digit_char (n / 1000 mod 10))
    (String (digit_char (n / 100 mod 10))
       (String (digit_char (n / 10 mod 10))
          (String (digit_char (n mod 10)) EmptyString))).

Definition sign_str (s : bool) : string := if s then "-" else "".

(** Sign, integer part, a point and exactly four fraction digits. *)
Definition fixed_4 (s : bool) (n : Z) : string :=
  sign_str s ++ str_of_int (n / 10000) ++ "." ++ four_digits (n mod 10000).

(** [f"{x:.4f}"] *)
Definition format_4f (x : PyFloat.float) : string :=
  match x with
  | S754_nan => "nan"
  | S754_infinity s => sign_str s ++ "inf"
  | S754_zero s => fixed_4 s 0
  | S754_finite s m e => fixed_4 s (scaled_4 m e)
  end.

End PyFormat.

(** ** The track [generate_drum_midi] builds *)

Inductive msg_type : Type := note_on | note_off.

(** An entry of [events]: the tuple [(tick, msg_type, note, vel)]. *)
Record event : Type := mk_event
  { ev_tick : Z; ev_type : msg_type; ev_note : Z; ev_vel : Z }.

(** [Message(type, note=, velocity=, time=)] *)
Record Message : Type := mk_Message
  { msg_kind : msg_type; msg_note : Z; msg_velocity : Z; msg_time : Z }.

Inductive track_msg : Type :=
| set_tempo (tempo : Z)
| track_name (name : string)
| note_msg (m : Message)
| end_of_track (time : Z).

(** A line of the timing file before formatting: the values interpolated
    into [f"{i},{note},{name},{current_time:.4f},{duration:.4f}\n"]. *)
Record timing_record : Type := mk_timing
  { tr_index : Z; tr_note : Z; tr_name : string;
    tr_start : PyFloat.float; tr_duration : PyFloat.float }.

Definition newline : string := String (ascii_of_nat 10) EmptyString.

Definition format_record (r : timing_record) : string :=
  (PyFormat.str_of_int (tr_index r) ++ "," ++
   PyFormat.str_of_int (tr_note r) ++ "," ++
   tr_name r ++ "," ++
   PyFormat.format_4f (tr_start r) ++ "," ++
   PyFormat.format_4f (tr_duration r) ++ newline)%string.

(** The sort key [(x[0], 0 if x[1] == 'note_off' else 1)] and the order of
    Python tuples. *)
Definition event_key (x : event) : Z * Z :=
  (ev_tick x, match ev_type x with note_off => 0 | note_on => 1 end).

Definition key_ltb (a b : Z * Z) : bool :=
  (fst a <? fst b) || ((fst a =? fst b) && (snd a <? snd b)).

Section Generate.

(** The arguments of [generate_drum_midi], and [mid.ticks_per_beat]. *)
Variable spacing_multiplier : PyFloat.float.
Variable velocity : Z.
Variable bpm : Z.
Variable ticks_per_beat : Z.

Definition lead_in_ticks : Z := ticks_per_beat.

(** [duration_beats * ticks_per_beat], the float [int()] is applied to. *)
Definition tick_product (base_duration : PyFloat.float) : result PyFloat.float :=
  let duration_seconds := PyFloat.mul base_duration spacing_multiplier in
  q <- PyFloat.int_truediv bpm 60 ;;
  let duration_beats := PyFloat.mul duration_seconds q in
  PyFloat.mul_int duration_beats ticks_per_beat.

(** [int(duration_beats * ticks_per_beat)] *)
Definition duration_ticks (base_duration : PyFloat.float) : result Z :=
  x <- tick_product base_duration ;; PyFloat.to_int x.

Definition note_length_product : result PyFloat.float :=
  q <- PyFloat.int_truediv bpm 60 ;;
  PyFloat.mul_int (PyFloat.mul PyFloat.f0_1 q) ticks_per_beat.

(** [int(0.1 * (bpm / 60) * ticks_per_beat)] *)
Definition note_length_ticks : result Z :=
  x <- note_length_product ;; PyFloat.to_int x.

(** The loop that fills [events] with absolute times. *)
Fixpoint build_events (drum_mapping : list drum) (current_tick : Z)
         (events : list event) : result (list event) :=
  match drum_mapping with
  | [] => Ok events
  | d :: rest =>
      dt <- duration_ticks (base_duration d) ;;
      nl <- note_length_ticks ;;
      build_events rest (current_tick + dt)
        (events ++ [mk_event current_tick note_on (drum_note d) velocity;
                    mk_event (current_tick + nl) note_off (drum_note d) 0])
  end.

(** The loop that converts to delta times. *)
Fixpoint delta_messages (events : list event) (last_tick : Z) : list Message :=
  match events with
  | [] => []
  | x :: rest =>
      let delta := ev_tick x - last_tick in
      mk_Message (ev_type x) (ev_note x) (ev_vel x) delta
        :: delta_messages rest (ev_tick x)
  end.

(** The events in the order they are emitted. *)
Definition sorted_events (drum_mapping : list drum) : result (list event) :=
  events <- build_events drum_mapping lead_in_ticks [] ;;
  Ok (sort_by event_key key_ltb events).

(** The final track; [tempo] is the value [mido.bpm2tempo(bpm)] returned.
    The two earlier passes over [drum_mapping] fill the track and are
    discarded by [track.clear()]; they evaluate the same conversions in the
    same order, so they raise when this pass does. *)
Definition final_track (tempo : Z) (drum_mapping : list drum)
  : result (list track_msg) :=
  events <- sorted_events drum_mapping ;;
  Ok ([set_tempo tempo; track_name "Logic Drum Export"]
        ++ map note_msg (delta_messages events 0)
        ++ [end_of_track ticks_per_beat]).

(** The loop that writes the timing file. *)
Fixpoint timing_loop (drum_mapping : list drum) (i : Z)
         (current_time : PyFloat.float) : list timing_record :=
  match drum_mapping with
  | [] => []
  | d :: rest =>
      let duration := PyFloat.mul (base_duration d) spacing_multiplier in
      mk_timing i (drum_note d) (drum_name d) current_time duration
        :: timing_loop rest (i + 1) (PyFloat.add current_time duration)
  end.

Definition timing_records (drum_mapping : list drum) : result (list timing_record) :=
  q <- PyFloat.int_truediv 60 bpm ;;
  Ok (timing_loop drum_mapping 0 (PyFloat.mul PyFloat.f1_0 q)).

Definition timing_lines (drum_mapping : list drum) : result (list string) :=
  records <- timing_records drum_mapping ;;
  Ok (map format_record records).

End Generate.

(** ** Quantities the statements are phrased with *)

(** The delta time a track message carries (meta messages created without a
    [time] argument carry 0). *)
Definition delta_time (m : track_msg) : Z :=
  match m with
  | set_tempo _ | track_name _ => 0
  | note_msg m => msg_time m
  | end_of_track t => t
  end.

(** Absolute times recovered from delta times by cumulative summation. *)
Fixpoint absolute_times (deltas : list Z) (now : Z) : list Z :=
  match deltas with
  | [] => []
  | d :: rest => (now + d) :: absolute_times rest (now + d)
  end.

(** The order of the sort keys: [a] is not after [b]. *)
Definition key_le (a b : Z * Z) : Prop := key_ltb b a = false.

Definition event_le (x y : event) : Prop := key_le (event_key x) (event_key y).

(** The events of a layout in which entry [k] has note [fst] and spacing
    [snd], every note is held [nl] ticks and the first one starts at [t]. *)
Fixpoint layout (velocity nl t : Z) (entries : list (Z * Z)) : list event :=
  match entries with
  | [] => []
  | (note, dt) :: rest =>
      mk_event t note_on note velocity
        :: mk_event (t + nl) note_off note 0
        :: layout velocity nl (t + dt) rest
  end.

(** One tick in seconds, [60 / (bpm * ticks_per_beat)], and a tick count in
    seconds, as exact rationals. *)
Definition seconds_per_tick (bpm ticks_per_beat : Z) : Q :=
  (60 / inject_Z (bpm * ticks_per_beat))%Q.

Definition tick_seconds (bpm ticks_per_beat tick : Z) : Q :=
  (inject_Z tick * seconds_per_tick bpm ticks_per_beat)%Q.

(** The exact value of the float an entry's [int()] is applied to (0 when the
    product raised). *)
Definition tick_product_Q (spacing_multiplier : PyFloat.float) (bpm ticks_per_beat : Z)
           (d : drum) : Q :=
  match tick_product spacing_multiplier bpm ticks_per_beat (base_duration d) with
  | Ok x => PyFloat.to_Q x
  | Raise _ => 0%Q
  end.

Definition Qsum (l : list Q) : Q := fold_right Qplus 0%Q l.

(** The tick conversion as the specification words it: [round], to the
    nearest integer with ties to even. *)
Module TickSpec.

Definition round (x : PyFloat.float) : result Z :=
  match x with
  | S754_zero _ => Ok 0
  | S754_finite s m e =>
      Ok (cond_Zopp s
            match e with
            | Zneg n => PyFormat.div_half_even (Zpos m) (Zpos (2 ^ n))
            | _ => Zpos m * 2 ^ e
            end)
  | S754_infinity _ => Raise OverflowError
  | S754_nan => Raise ValueError
  end.

Definition duration_ticks (spacing_multiplier : PyFloat.float) (bpm ticks_per_beat : Z)
           (base_duration : PyFloat.float) : result Z :=
  x <- tick_product spacing_multiplier bpm ticks_per_beat base_duration ;; round x.

Definition note_length_ticks (bpm ticks_per_beat : Z) : result Z :=
  x <- note_length_product bpm ticks_per_beat ;; round x.

End TickSpec.

(** The entries a layout is made of: the notes of the drums with the
    spacing, in ticks, computed for each. *)
Definition entries_of (drums : list drum) (dts : list Z) : list (Z * Z) :=
  combine (map drum_note drums) dts.

(** [x] may be emitted in front of [y]: earlier tick, or the same tick and
    not a [note_on] in front of a [note_off]. *)
Definition in_order (x y : event) : Prop :=
  ev_tick x < ev_tick y \/
  (ev_tick x = ev_tick y /\ (ev_type x = note_on -> ev_type y = note_on)).

(** Sample drums, as [load_drum_mapping] builds them. *)
Definition kick : drum := mk_drum 36 "Kick" (get_duration_for_sound "Kick").
Definition snare : drum := mk_drum 38 "Snare" (get_duration_for_sound "Snare").
Definition crash : drum :=
  mk_drum 49 "Crash Cymbal 1" (get_duration_for_sound "Crash Cymbal 1").

(** [t] is [x] truncated toward zero. *)
Definition truncation_of (x : Q) (t : Z) : Prop :=
  ((0 <= x)%Q -> (inject_Z t <= x)%Q /\ (x < inject_Z t + 1)%Q) /\
  ((x <= 0)%Q -> (inject_Z t - 1 < x)%Q /\ (x <= inject_Z t)%Q).

(** The double nearest to [1.001], a spacing multiplier that leaves a
    fraction of a tick in every entry. *)
Definition f1_001 : PyFloat.float := S754_finite false 4508103226997866 (-52).

(** The drum [load_drum_mapping] makes of a note and a name. *)
Definition drum_of (note : Z) (name : string) : drum :=
  mk_drum note name (get_duration_for_sound name).

(** The report's start time of entry [i]: the running float sum the timing
    loop has accumulated when it reaches the entry, from the lead-in [lead]. *)
Definition start_seconds (spacing_multiplier lead : PyFloat.float)
           (drums : list drum) (i : nat) : PyFloat.float :=
  fold_left PyFloat.add
            (map (fun d => PyFloat.mul (base_duration d) spacing_multiplier)
                 (firstn i drums))
            lead.

Definition is_digit (c : ascii) : bool :=
  let n := nat_of_ascii c in (48 <=? n)%nat && (n <=? 57)%nat.

Fixpoint all_digits (s : string) : bool :=
  match s with
  | EmptyString => true
  | String c s' => is_digit c && all_digits s'
  end.

(** The drums of an object-form mapping whose keys convert to [notes], in
    the order of the entries. *)
Definition converted (notes : list Z) (entries : list (string * string)) : list drum :=
  map (fun p => drum_of (fst p) (snd (snd p))) (combine notes entries).

(** [x] is a finite float with [|x| < 2^A]. *)
Definition bounded_by (x : PyFloat.float) (A : Z) : Prop :=
  match x with
  | S754_zero _ => True
  | S754_finite _ m e => Zdigits2 (Zpos m) + e <= A
  | _ => False
  end.

(** ** Quantities the further properties are phrased with *)

Definition is_note_on (k : msg_type) : bool :=
  match k with note_on => true | note_off => false end.

(** The note messages of a track, in track order. *)
Definition note_messages (track : list track_msg) : list Message :=
  flat_map (fun m => match m with note_msg x => [x] | _ => [] end) track.

(** What a note message says apart from its time. *)
Definition msg_fields (m : Message) : msg_type * Z * Z :=
  (msg_kind m, msg_note m, msg_velocity m).

(** One [note_on] and one [note_off] per drum. *)
Definition triggers (velocity : Z) (drums : list drum) : list (msg_type * Z * Z) :=
  flat_map (fun d => [(note_on, drum_note d, velocity); (note_off, drum_note d, 0)]) drums.

(** The list with every two neighbours exchanged. *)
Fixpoint swap_pairs {A : Type} (l : list A) : list A :=
  match l with
  | a :: b :: rest => b :: a :: swap_pairs rest
  | _ => l
  end.

Definition event_is_on (x : event) : bool := is_note_on (ev_type x).
Definition event_is_off (x : event) : bool := negb (is_note_on (ev_type x)).
Definition message_is_on (m : Message) : bool := is_note_on (msg_kind m).
Definition message_is_off (m : Message) : bool := negb (is_note_on (msg_kind m)).

(** The events of type [k] at tick [t]. *)
Definition event_at (t : Z) (k : msg_type) (x : event) : bool :=
  (ev_tick x =? t) && Bool.eqb (is_note_on (ev_type x)) (is_note_on k).

(** The delta times of a layout emitted as it is: [first] for the first
    [note_on], the note length for every [note_off], and the rest of an
    entry's spacing for the [note_on] after it. *)
Fixpoint layout_deltas (nl first : Z) (entries : list (Z * Z)) : list Z :=
  match entries with
  | [] => []
  | (_, dt) :: rest => first :: nl :: layout_deltas nl (dt - nl) rest
  end.

(** What the MIDI writer requires of a note message: data bytes in
    [0..127] and a delta time that is not negative. *)
Definition writable (m : Message) : Prop :=
  0 <= msg_note m <= 127 /\ 0 <= msg_velocity m <= 127 /\ 0 <= msg_time m.

(** ** The whole of [generate_drum_midi] *)

(** The two messages every pass starts its track with. *)
Definition track_header (tempo : Z) : list track_msg :=
  [set_tempo tempo; track_name "Logic Drum Export"].

Section Passes.

Variable spacing_multiplier : PyFloat.float.
Variable velocity : Z.
Variable bpm : Z.
Variable ticks_per_beat : Z.

(** The first loop over the mapping: it appends a [note_on] and a
    [note_off] per entry and accumulates [current_time]; its track is
    cleared afterwards.  (What it prints is not modelled.) *)
Fixpoint first_pass (drum_mapping : list drum) (i : Z) (track : list track_msg)
         (current_time : PyFloat.float) : result (list track_msg * PyFloat.float) :=
  match drum_mapping with
  | [] => Ok (track, current_time)
  | d :: rest =>
      let duration_seconds := PyFloat.mul (base_duration d) spacing_multiplier in
      dt <- duration_ticks spacing_multiplier bpm ticks_per_beat (base_duration d) ;;
      let delta := if i =? 0 then lead_in_ticks ticks_per_beat else 0 in
      let track :=
        track ++ [note_msg (mk_Message note_on (drum_note d) velocity delta)] in
      nl <- note_length_ticks bpm ticks_per_beat ;;
      let track := track ++ [note_msg (mk_Message note_off (drum_note d) 0 nl)] in
      first_pass rest (i + 1) track (PyFloat.add current_time duration_seconds)
  end.

(** The second loop: the same two messages per entry and, after every
    entry but the last, a silent note 0 that carries the rest of the
    spacing; its track is cleared afterwards too. *)
Fixpoint second_pass (drum_mapping : list drum) (i n : Z) (track : list track_msg)
  : result (list track_msg) :=
  match drum_mapping with
  | [] => Ok track
  | d :: rest =>
      dt <- duration_ticks spacing_multiplier bpm ticks_per_beat (base_duration d) ;;
      nl <- note_length_ticks bpm ticks_per_beat ;;
      let delta := if i =? 0 then lead_in_ticks ticks_per_beat else 0 in
      let track :=
        track ++ [note_msg (mk_Message note_on (drum_note d) velocity delta)] in
      let track := track ++ [note_msg (mk_Message note_off (drum_note d) 0 nl)] in
      let spacing_ticks := dt - nl in
      let track :=
        if i <? n - 1
        then track ++ [note_msg (mk_Message note_on 0 0 spacing_ticks);
                       note_msg (mk_Message note_off 0 0 0)]
        else track in
      second_pass rest (i + 1) n track
  end.

(** The track [generate_drum_midi] saves: the three passes in turn, each
    on a fresh track. *)
Definition generate_track (tempo : Z) (drum_mapping : list drum)
  : result (list track_msg) :=
  _ <- first_pass drum_mapping 0 (track_header tempo) (S754_zero false) ;;
  _ <- second_pass drum_mapping 0 (Z.of_nat (List.length drum_mapping))
                   (track_header tempo) ;;
  final_track spacing_multiplier velocity bpm ticks_per_beat tempo drum_mapping.

(** [generate_drum_midi] from the loaded JSON value on: the saved track
    and the record lines of the timing file. *)
Definition generate_drum_midi (tempo : Z) (m : mapping)
  : result (list track_msg * list string) :=
  drum_mapping <- load_drum_mapping m ;;
  track <- generate_track tempo drum_mapping ;;
  lines <- timing_lines spacing_multiplier bpm drum_mapping ;;
  Ok (track, lines).

End Passes.

(** The two JSON shapes of one list of (note, name) pairs: the array of
    records, and the legacy object keyed by the notes written in decimal. *)
Definition array_form (l : list (Z * string)) : mapping :=
  ArrayFormat (map (fun p => {| item_note := fst p; item_name := snd p |}) l).

Definition object_form (l : list (Z * string)) : mapping :=
  ObjectFormat (map (fun p => (PyFormat.str_of_int (fst p), snd p)) l).

Definition Zsum (l : list Z) : Z := fold_right Z.add 0 l.

(** The length of a track in ticks: the absolute time its last message is
    at, the sum of all delta times. *)
Definition track_ticks (track : list track_msg) : Z := Zsum (map delta_time track).

(** The value of [last_tick] when the delta loop has run over [events]. *)
Definition end_tick (events : list event) (last_tick : Z) : Z :=
  fold_left (fun _ x => ev_tick x) events last_tick.

(** [x] is the normal binary64 number with the value [a / 2]. *)
Definition is_half (x : PyFloat.float) (a : Z) : Prop :=
  exists (m : positive) (e : Z),
    x = S754_finite false m e /\ e <= -1 /\
    Zpos m = a * 2 ^ (-1 - e) /\ Zdigits2 (Zpos m) = 53.

(** * Properties *)

Arguments PyFloat.mul : simpl never.
Arguments PyFloat.add : simpl never.
Arguments PyFloat.of_int : simpl never.
Arguments PyFloat.int_truediv : simpl never.

(** ** Floats *)

(** The literal constants are the binary64 values of the decimal literals
    ([0.1] is the double [0x1.999999999999ap-4]). *)
Lemma literals_are_binary64 :
  Prim2SF 0x1.999999999999ap-4%float = PyFloat.f0_1 /\
  Prim2SF 1.0%float = PyFloat.f1_0 /\
  Prim2SF 2.0%float = PyFloat.f2_0 /\
  Prim2SF 2.5%float = PyFloat.f2_5 /\
  Prim2SF 3.0%float = PyFloat.f3_0 /\
  Prim2SF 4.0%float = PyFloat.f4_0 /\
  Prim2SF 5.0%float = PyFloat.f5_0.
Proof. repeat split; vm_compute; reflexivity. Qed.

(** ** The stable sort *)

Section StableSortFacts.

Context {A K : Type}.
Variable key : A -> K.
Variable ltb : K -> K -> bool.

Let le (x y : A) : Prop := ltb (key y) (key x) = false.

Hypothesis ltb_asym : forall a b, ltb a b = true -> ltb b a = false.
Hypothesis le_trans :
  forall a b c, ltb b a = false -> ltb c b = false -> ltb c a = false.

Lemma insert_by_perm (x : A) (l : list A) :
  Permutation (x :: l) (insert_by key ltb x l).
Proof.
  induction l as [|y l IH]; simpl.
  - apply Permutation_refl.
  - destruct (ltb (key y) (key x)).
    + eapply perm_trans; [apply perm_swap|]. now apply perm_skip.
    + apply Permutation_refl.
Qed.

Lemma sort_by_perm (l : list A) : Permutation l (sort_by key ltb l).
Proof.
  induction l as [|x l IH]; simpl.
  - constructor.
  - eapply perm_trans; [apply perm_skip, IH|]. apply insert_by_perm.
Qed.

Lemma insert_by_sorted (x : A) (l : list A) :
  StronglySorted le l -> StronglySorted le (insert_by key ltb x l).
Proof.
  induction 1 as [|y l Hs IH Hy]; simpl.
  - repeat constructor.
  - destruct (ltb (key y) (key x)) eqn:E.
    + constructor; [exact IH|].
      apply (Permutation_Forall (insert_by_perm x l)).
      constructor; [|exact Hy]. unfold le. now apply ltb_asym.
    + constructor; [now constructor|].
      constructor; [exact E|].
      eapply Forall_impl; [|exact Hy].
      intros z Hz. unfold le in *. eapply le_trans; eassumption.
Qed.

Lemma sort_by_sorted (l : list A) : StronglySorted le (sort_by key ltb l).
Proof.
  induction l as [|x l IH]; simpl.
  - constructor.
  - now apply insert_by_sorted.
Qed.

Lemma sort_by_length (l : list A) :
  List.length (sort_by key ltb l) = List.length l.
Proof. symmetry. apply Permutation_length, sort_by_perm. Qed.

Lemma sort_by_Forall (P : A -> Prop) (l : list A) :
  Forall P l -> Forall P (sort_by key ltb l).
Proof. apply Permutation_Forall, sort_by_perm. Qed.

End StableSortFacts.

Lemma key_ltb_asym (a b : Z * Z) : key_ltb a b = true -> key_ltb b a = false.
Proof.
  unfold key_ltb. destruct a as [a1 a2], b as [b1 b2]; simpl.
  rewrite orb_true_iff, andb_true_iff, orb_false_iff, andb_false_iff.
  rewrite !Z.ltb_lt, !Z.ltb_ge, Z.eqb_eq, Z.eqb_neq. lia.
Qed.

Lemma key_le_trans (a b c : Z * Z) :
  key_ltb b a = false -> key_ltb c b = false -> key_ltb c a = false.
Proof.
  unfold key_ltb. destruct a as [a1 a2], b as [b1 b2], c as [c1 c2]; simpl.
  rewrite !orb_false_iff, !andb_false_iff, !Z.ltb_ge, !Z.eqb_neq. lia.
Qed.

Lemma event_le_tick (x y : event) : event_le x y -> ev_tick x <= ev_tick y.
Proof.
  unfold event_le, key_le, key_ltb, event_key; simpl.
  rewrite orb_false_iff, Z.ltb_ge. tauto.
Qed.

(** At equal ticks a [note_on] is never in front of a [note_off]. *)
Lemma event_le_tie (x y : event) :
  event_le x y -> ev_tick x = ev_tick y -> ev_type x = note_on -> ev_type y = note_on.
Proof.
  unfold event_le, key_le, key_ltb, event_key; simpl.
  rewrite orb_false_iff, andb_false_iff, Z.ltb_ge, Z.eqb_neq, Z.ltb_ge.
  intros [_ [H|H]] E Hx; [congruence|].
  rewrite Hx in H. destruct (ev_type y); [reflexivity|lia].
Qed.

(** ** Signs of the float operations *)

Lemma binary_round_aux_finite_sign (sx : bool) (mx ex : Z) (lx : location)
      (s : bool) (m : positive) (e : Z) :
  binary_round_aux PyFloat.prec PyFloat.emax sx mx ex lx = S754_finite s m e ->
  s = sx.
Proof.
  unfold binary_round_aux.
  destruct (shr_fexp _ _ mx ex lx) as [mrs' e'].
  destruct (shr_fexp _ _ _ e' loc_Exact) as [mrs'' e''].
  destruct (shr_m mrs''); try discriminate.
  destruct (e'' <=? PyFloat.emax - PyFloat.prec); congruence.
Qed.

Lemma mul_finite_sign (x y : PyFloat.float) (s : bool) (m : positive) (e : Z) :
  PyFloat.mul x y = S754_finite s m e ->
  exists sx mx ex sy my ey,
    x = S754_finite sx mx ex /\ y = S754_finite sy my ey /\ s = xorb sx sy.
Proof.
  unfold PyFloat.mul, SFmul.
  destruct x as [sx|sx| |sx mx ex], y as [sy|sy| |sy my ey]; try discriminate.
  intros H. apply binary_round_aux_finite_sign in H.
  now exists sx, mx, ex, sy, my, ey.
Qed.

Lemma of_int_finite_sign (z : Z) (s : bool) (m : positive) (e : Z) :
  PyFloat.of_int z = Ok (S754_finite s m e) -> s = (z <? 0).
Proof.
  unfold PyFloat.of_int, binary_normalize, binary_round.
  destruct z as [|p|p]; simpl.
  - discriminate.
  - destruct (shl_align _ _ _) as [mz ez].
    destruct (binary_round_aux _ _ _ _ _ _) eqn:E; simpl; try discriminate.
    intros H. inversion H; subst. now apply binary_round_aux_finite_sign in E.
  - destruct (shl_align _ _ _) as [mz ez].
    destruct (binary_round_aux _ _ _ _ _ _) eqn:E; simpl; try discriminate.
    intros H. inversion H; subst. now apply binary_round_aux_finite_sign in E.
Qed.

Lemma int_truediv_finite_sign (a b : Z) (s : bool) (m : positive) (e : Z) :
  PyFloat.int_truediv a b = Ok (S754_finite s m e) ->
  s = xorb (a <? 0) (b <? 0).
Proof.
  unfold PyFloat.int_truediv.
  destruct (b =? 0); [discriminate|].
  destruct (SFdiv _ _ _ _) eqn:E; simpl; try discriminate.
  intros H. inversion H; subst. clear H. revert E.
  unfold SFdiv, PyFloat.exact_of_int.
  destruct a as [|p|p], b as [|q|q]; try discriminate;
    (destruct (SFdiv_core_binary _ _ _ _ _ _) as [[mz ez] lz];
     intros H; now apply binary_round_aux_finite_sign in H).
Qed.

Lemma gt_zero_sign_clear (x : PyFloat.float) :
  PyFloat.gt_zero x = true -> PyFloat.sign_clear x = true.
Proof. destruct x as [s|[|]| |[|] m e]; simpl; try discriminate; reflexivity. Qed.

Lemma to_int_sign_clear (x : PyFloat.float) (t : Z) :
  PyFloat.sign_clear x = true -> PyFloat.to_int x = Ok t -> 0 <= t.
Proof.
  destruct x as [s|s| |s m e]; simpl; try discriminate.
  - intros _ H. inversion H. lia.
  - intros Hs H. inversion H. unfold PyFloat.trunc.
    destruct s; [discriminate|]. simpl. apply Z.shiftl_nonneg. lia.
Qed.

Section TickSigns.

Variable spacing_multiplier : PyFloat.float.
Variables bpm ticks_per_beat : Z.

Hypothesis spacing_positive : PyFloat.gt_zero spacing_multiplier = true.
Hypothesis bpm_positive : 0 < bpm.
Hypothesis ticks_per_beat_positive : 0 < ticks_per_beat.

Lemma tick_product_finite_sign (d : PyFloat.float) (s : bool) (m : positive) (e : Z) :
  PyFloat.gt_zero d = true ->
  tick_product spacing_multiplier bpm ticks_per_beat d = Ok (S754_finite s m e) ->
  s = false.
Proof.
  intros Hd. unfold tick_product, PyFloat.mul_int.
  destruct (PyFloat.int_truediv bpm 60) as [q|] eqn:Eq; simpl; [|discriminate].
  destruct (PyFloat.of_int ticks_per_beat) as [t|] eqn:Et; simpl; [|discriminate].
  intros H. inversion H as [H']. clear H.
  apply mul_finite_sign in H'.
  destruct H' as (s1 & m1 & e1 & st & mt & et & H1 & -> & ->).
  apply mul_finite_sign in H1.
  destruct H1 as (s2 & m2 & e2 & sq & mq & eq' & H2 & -> & ->).
  apply mul_finite_sign in H2.
  destruct H2 as (sd & md & ed & ss & ms & es & -> & Hsp & ->).
  apply of_int_finite_sign in Et. apply int_truediv_finite_sign in Eq.
  apply gt_zero_sign_clear in Hd. pose proof (gt_zero_sign_clear _ spacing_positive) as Hs.
  rewrite Hsp in Hs. simpl in Hd, Hs.
  apply negb_true_iff in Hd, Hs. subst.
  assert ((bpm <? 0) = false) as -> by (apply Z.ltb_ge; lia).
  assert ((ticks_per_beat <? 0) = false) as -> by (apply Z.ltb_ge; lia).
  reflexivity.
Qed.

Lemma duration_ticks_nonneg (d : PyFloat.float) (dt : Z) :
  PyFloat.gt_zero d = true ->
  duration_ticks spacing_multiplier bpm ticks_per_beat d = Ok dt ->
  0 <= dt.
Proof.
  intros Hd. unfold duration_ticks.
  destruct (tick_product _ _ _ d) as [x|] eqn:E; simpl; [|discriminate].
  destruct x as [s|s| |s m e]; simpl; try discriminate.
  - intros H; inversion H; lia.
  - intros H; inversion H. apply tick_product_finite_sign in E; [|exact Hd].
    subst s. unfold PyFloat.trunc; simpl. apply Z.shiftl_nonneg. lia.
Qed.

End TickSigns.

(** ** Rounding does not overflow on small magnitudes *)

Lemma digits2_pos_size (p : positive) : digits2_pos p = Pos.size p.
Proof. induction p as [p IH|p IH|]; simpl; congruence. Qed.

Lemma Zdigits2_log2 (p : positive) : Zdigits2 (Zpos p) = Z.log2 (Zpos p) + 1.
Proof.
  destruct p as [p|p|]; simpl; rewrite ?digits2_pos_size; lia.
Qed.

Lemma Zdigits2_nonneg (m : Z) : 0 <= Zdigits2 m.
Proof. destruct m; simpl; lia. Qed.

Lemma Zdigits2_bound (m k : Z) : 0 <= m < 2 ^ k -> 0 <= k -> Zdigits2 m <= k.
Proof.
  intros [H0 Hk] Hk0. destruct m as [|p|p]; simpl; [lia| |lia].
  change (Zpos (digits2_pos p)) with (Zdigits2 (Zpos p)).
  rewrite Zdigits2_log2. apply Z.log2_lt_pow2 in Hk; lia.
Qed.

Lemma Zdigits2_gt (m : Z) : 0 <= m -> m < 2 ^ Zdigits2 m.
Proof.
  intros H0. destruct m as [|p|p]; [reflexivity| |lia].
  rewrite Zdigits2_log2. replace (Z.log2 (Zpos p) + 1) with (Z.succ (Z.log2 (Zpos p))) by lia.
  apply Z.log2_spec. lia.
Qed.

Lemma shr_1_m (mrs : shr_record) :
  0 <= shr_m mrs -> shr_m (shr_1 mrs) = shr_m mrs / 2.
Proof.
  destruct mrs as [m r s]. simpl. intros H.
  destruct m as [|[p|p|]|p]; simpl shr_m; try lia; try reflexivity.
  - rewrite Pos2Z.inj_xI. apply Z.div_unique with 1; lia.
  - rewrite Pos2Z.inj_xO. apply Z.div_unique with 0; lia.
Qed.

Lemma iter_shr_1_m (n : positive) :
  forall mrs, 0 <= shr_m mrs ->
              shr_m (iter_pos shr_1 n mrs) = shr_m mrs / 2 ^ Zpos n.
Proof.
  induction n as [n IH|n IH|]; intros mrs H; simpl iter_pos.
  - assert (0 <= shr_m (shr_1 mrs)) as H1 by (rewrite shr_1_m by lia; apply Z.div_pos; lia).
    assert (0 <= shr_m (iter_pos shr_1 n (shr_1 mrs))) as H2
        by (rewrite IH by lia; apply Z.div_pos; lia).
    rewrite IH, IH, shr_1_m by assumption.
    rewrite !Z.div_div by lia. f_equal.
    rewrite (Pos2Z.inj_xI n). replace (2 * Zpos n + 1) with (1 + Zpos n + Zpos n) by lia.
    rewrite !Z.pow_add_r by lia. change (2 ^ 1) with 2. lia.
  - assert (0 <= shr_m (iter_pos shr_1 n mrs)) as H2
        by (rewrite IH by lia; apply Z.div_pos; lia).
    rewrite IH, IH by assumption.
    rewrite !Z.div_div by lia. f_equal.
    rewrite (Pos2Z.inj_xO n). replace (2 * Zpos n) with (Zpos n + Zpos n) by lia.
    rewrite Z.pow_add_r by lia. reflexivity.
  - rewrite shr_1_m by assumption. reflexivity.
Qed.

Lemma shr_record_of_loc_m (m : Z) (l : location) : shr_m (shr_record_of_loc m l) = m.
Proof. destruct l as [|[| |]]; reflexivity. Qed.

Lemma shr_fexp_spec (m e : Z) (l : location) :
  0 <= m ->
  let e' := Z.max e (fexp PyFloat.prec PyFloat.emax (Zdigits2 m + e)) in
  snd (shr_fexp PyFloat.prec PyFloat.emax m e l) = e' /\
  shr_m (fst (shr_fexp PyFloat.prec PyFloat.emax m e l)) = m / 2 ^ (e' - e).
Proof.
  intros H e'. unfold shr_fexp, shr.
  destruct (fexp PyFloat.prec PyFloat.emax (Zdigits2 m + e) - e) as [|p|p] eqn:E; simpl.
  - assert (e' = e) as -> by lia. rewrite Z.sub_diag, shr_record_of_loc_m, Z.div_1_r. auto.
  - assert (e' = e + Zpos p) as -> by lia. split; [reflexivity|].
    rewrite iter_shr_1_m by (rewrite shr_record_of_loc_m; lia).
    rewrite shr_record_of_loc_m. f_equal. f_equal. lia.
  - assert (e' = e) as -> by lia. rewrite Z.sub_diag, shr_record_of_loc_m, Z.div_1_r. auto.
Qed.

Lemma round_nearest_even_bounds (m : Z) (l : location) :
  m <= round_nearest_even m l <= m + 1.
Proof. destruct l as [|[| |]]; simpl; try lia. destruct (Z.even m); lia. Qed.

Lemma div_pow2_digits (m n : Z) :
  0 <= m -> 0 <= n -> 0 < m / 2 ^ n -> Zdigits2 (m / 2 ^ n) <= Zdigits2 m - n.
Proof.
  intros Hm Hn Hpos.
  pose proof (Zdigits2_gt m Hm) as Hd. pose proof (Zdigits2_nonneg m) as Hd0.
  assert (n <= Zdigits2 m) as Hle.
  { destruct (Z_le_gt_dec n (Zdigits2 m)) as [|Hgt]; [assumption|exfalso].
    assert (m < 2 ^ n) by (eapply Z.lt_le_trans; [exact Hd|]; apply Z.pow_le_mono_r; lia).
    rewrite Z.div_small in Hpos by lia. lia. }
  apply Zdigits2_bound; [|lia]. split; [lia|].
  apply Z.div_lt_upper_bound; [lia|].
  rewrite <- Z.pow_add_r by lia. replace (n + (Zdigits2 m - n)) with (Zdigits2 m) by lia.
  exact Hd.
Qed.

Lemma fexp_binary64 (k : Z) :
  fexp PyFloat.prec PyFloat.emax k = Z.max (k - 53) (-1074).
Proof. reflexivity. Qed.

Lemma Zdigits2_succ_bound (a m : Z) :
  0 <= a -> 0 <= m <= a + 1 -> Zdigits2 m <= Zdigits2 a + 1.
Proof.
  intros Ha Hm. pose proof (Zdigits2_gt a Ha). pose proof (Zdigits2_nonneg a).
  apply Zdigits2_bound; [|lia]. rewrite Z.pow_add_r by lia. change (2 ^ 1) with 2. lia.
Qed.

(** A non-negative mantissa of magnitude at most [K <= 1023] rounds to a
    zero or to a finite float of magnitude at most [K + 1]: never to an
    infinity. *)
Lemma binary_round_aux_bounded (sx : bool) (mx ex : Z) (lx : location) (K : Z) :
  0 <= mx -> ex <= 971 -> Zdigits2 mx + ex <= K -> K <= 1023 ->
  match binary_round_aux PyFloat.prec PyFloat.emax sx mx ex lx with
  | S754_zero _ => True
  | S754_finite _ m e => Zdigits2 (Zpos m) + e <= Z.max K (-1074) + 1
  | _ => False
  end.
Proof.
  intros Hmx Hex HK HK'. unfold binary_round_aux.
  destruct (shr_fexp_spec mx ex lx Hmx) as [He1 Hm1].
  destruct (shr_fexp PyFloat.prec PyFloat.emax mx ex lx) as [mrs1 e1].
  cbn [fst snd] in He1, Hm1. rewrite <- He1 in Hm1. rewrite fexp_binary64 in He1.
  pose proof (Zdigits2_nonneg mx) as Hd.
  assert (0 <= e1 - ex) as Hn1 by lia.
  assert (0 <= shr_m mrs1) as Hm1' by (rewrite Hm1; apply Z.div_pos; lia).
  pose proof (round_nearest_even_bounds (shr_m mrs1) (loc_of_shr_record mrs1)) as Hr.
  set (m1 := round_nearest_even (shr_m mrs1) (loc_of_shr_record mrs1)) in *.
  assert (Zdigits2 m1 + e1 <= Z.max K (-1074) + 1) as Hd1.
  { pose proof (Zdigits2_succ_bound (shr_m mrs1) m1 Hm1' ltac:(lia)) as Hs.
    destruct (Z.eq_dec (shr_m mrs1) 0) as [E0|E0].
    - rewrite E0 in Hs. simpl in Hs. lia.
    - assert (0 < mx / 2 ^ (e1 - ex)) as Hpos by (rewrite <- Hm1; lia).
      pose proof (div_pow2_digits mx (e1 - ex) Hmx Hn1 Hpos) as Hdiv.
      rewrite <- Hm1 in Hdiv. lia. }
  destruct (shr_fexp_spec m1 e1 loc_Exact ltac:(lia)) as [He2 Hm2].
  destruct (shr_fexp PyFloat.prec PyFloat.emax m1 e1 loc_Exact) as [mrs2 e2].
  cbn [fst snd] in He2, Hm2. rewrite <- He2 in Hm2. rewrite fexp_binary64 in He2.
  assert (0 <= e2 - e1) as Hn2 by lia.
  destruct (shr_m mrs2) as [|m2|m2] eqn:E2.
  - exact I.
  - assert ((e2 <=? PyFloat.emax - PyFloat.prec) = true) as ->.
    { apply Z.leb_le. change (PyFloat.emax - PyFloat.prec) with 971. lia. }
    assert (0 < m1 / 2 ^ (e2 - e1)) as Hpos by (rewrite <- Hm2; lia).
    pose proof (div_pow2_digits m1 (e2 - e1) ltac:(lia) Hn2 Hpos) as Hdiv.
    rewrite <- Hm2 in Hdiv. simpl Zdigits2 in Hdiv. simpl Zdigits2. lia.
  - assert (0 <= m1 / 2 ^ (e2 - e1)) as Hge by (apply Z.div_pos; lia).
    rewrite <- Hm2 in Hge. lia.
Qed.

Lemma SFdiv_core_binary_bounded (a b : positive) :
  let '(q, e, _) := SFdiv_core_binary PyFloat.prec PyFloat.emax (Zpos a) 0 (Zpos b) 0 in
  0 <= q /\ e <= 0 /\ Zdigits2 q + e <= Zdigits2 (Zpos a).
Proof.
  unfold SFdiv_core_binary.
  set (e' := Z.min (fexp PyFloat.prec PyFloat.emax
                         (Zdigits2 (Zpos a) + 0 - (Zdigits2 (Zpos b) + 0))) (0 - 0)).
  assert (e' <= 0) as He by (unfold e'; lia).
  set (m' := match 0 - 0 - e' with
             | 0 => Zpos a
             | Zpos _ => Z.shiftl (Zpos a) (0 - 0 - e')
             | Zneg _ => 0
             end).
  assert (m' = Zpos a * 2 ^ (- e')) as Hm'.
  { unfold m'. destruct (0 - 0 - e') as [|s|s] eqn:Es.
    - replace (- e') with 0 by lia. lia.
    - rewrite Z.shiftl_mul_pow2 by lia. f_equal. f_equal. lia.
    - lia. }
  clearbody m' e'.
  pose proof (Z_div_mod m' (Zpos b) ltac:(lia)) as Hdm.
  destruct (Z.div_eucl m' (Zpos b)) as [q r]. destruct Hdm as [Hq Hr].
  assert (0 < 2 ^ (- e')) as Hp by (apply Z.pow_pos_nonneg; lia).
  assert (0 <= q) as Hq0 by nia.
  split; [exact Hq0|]. split; [exact He|].
  pose proof (Zdigits2_gt (Zpos a) ltac:(lia)) as Hda.
  pose proof (Zdigits2_nonneg (Zpos a)) as Hda0.
  assert (Zdigits2 q <= Zdigits2 (Zpos a) + - e'); [|lia].
  apply Zdigits2_bound; [|lia]. split; [exact Hq0|].
  rewrite Z.pow_add_r by lia. nia.
Qed.

(** [a / b] on integers evaluates whenever [b] is not zero and [a] is below
    [2^1023] in absolute value. *)
Lemma int_truediv_ok (a b : Z) :
  b <> 0 -> Z.abs a < 2 ^ 1023 ->
  exists q, PyFloat.int_truediv a b = Ok q /\ PyFloat.is_finite q = true.
Proof.
  intros Hb Ha. unfold PyFloat.int_truediv.
  destruct (Z.eqb_spec b 0) as [|_]; [contradiction|].
  assert (forall s pa pb, Zpos pa < 2 ^ 1023 ->
            PyFloat.is_finite
              (let '(mz, ez, lz) :=
                 SFdiv_core_binary PyFloat.prec PyFloat.emax (Zpos pa) 0 (Zpos pb) 0 in
               binary_round_aux PyFloat.prec PyFloat.emax s mz ez lz) = true) as Hfin.
  { intros s pa pb Hpa.
    pose proof (SFdiv_core_binary_bounded pa pb) as H.
    destruct (SFdiv_core_binary _ _ _ _ _ _) as [[mz ez] lz].
    destruct H as (H0 & He & Hd).
    assert (Zdigits2 (Zpos pa) <= 1023) as HK
        by (apply Zdigits2_bound; lia).
    pose proof (binary_round_aux_bounded s mz ez lz (Zdigits2 (Zpos pa)) H0 ltac:(lia) Hd HK)
      as Hr.
    destruct (binary_round_aux _ _ _ _ _ _); simpl; tauto. }
  assert (forall x, PyFloat.is_finite x = true ->
                    exists q, (if PyFloat.is_overflow x then Raise OverflowError else Ok x)
                              = Ok q /\ PyFloat.is_finite q = true) as Hok.
  { intros x Hx. destruct x; try discriminate; simpl; eauto. }
  apply Hok.
  destruct a as [|pa|pa], b as [|pb|pb]; try contradiction; try reflexivity;
    apply Hfin; lia.
Qed.

Lemma bounded_by_finite (x : PyFloat.float) (A : Z) :
  bounded_by x A -> PyFloat.is_finite x = true.
Proof. destruct x; simpl; tauto. Qed.

Lemma bounded_by_mono (x : PyFloat.float) (A B : Z) :
  A <= B -> bounded_by x A -> bounded_by x B.
Proof. destruct x; simpl; try tauto. lia. Qed.

Lemma Zdigits2_mul (a b : positive) :
  Zdigits2 (Zpos (a * b)) <= Zdigits2 (Zpos a) + Zdigits2 (Zpos b).
Proof.
  pose proof (Zdigits2_gt (Zpos a) ltac:(lia)) as Ha.
  pose proof (Zdigits2_gt (Zpos b) ltac:(lia)) as Hb.
  pose proof (Zdigits2_nonneg (Zpos a)). pose proof (Zdigits2_nonneg (Zpos b)).
  apply Zdigits2_bound; [|lia]. rewrite Z.pow_add_r, Pos2Z.inj_mul by lia. nia.
Qed.

Lemma Zdigits2_pos (p : positive) : 1 <= Zdigits2 (Zpos p).
Proof. simpl. lia. Qed.

Lemma mul_bounded (x y : PyFloat.float) (A B : Z) :
  0 <= A -> 0 <= B -> A + B <= 973 ->
  bounded_by x A -> bounded_by y B -> bounded_by (PyFloat.mul x y) (A + B + 1).
Proof.
  intros HA HB HAB Hx Hy. unfold PyFloat.mul, SFmul.
  destruct x as [sx|sx| |sx mx ex], y as [sy|sy| |sy my ey]; unfold bounded_by in Hx, Hy;
    try contradiction; try exact I.
  pose proof (Zdigits2_mul mx my) as Hd.
  pose proof (Zdigits2_pos mx). pose proof (Zdigits2_pos my).
  change (Zpos (digits2_pos mx)) with (Zdigits2 (Zpos mx)) in Hx.
  change (Zpos (digits2_pos my)) with (Zdigits2 (Zpos my)) in Hy.
  pose proof (binary_round_aux_bounded (xorb sx sy) (Zpos (mx * my)) (ex + ey) loc_Exact
                (A + B) ltac:(lia) ltac:(lia) ltac:(lia) ltac:(lia)) as Hr.
  destruct (binary_round_aux _ _ _ _ _ _); unfold bounded_by; try tauto.
  cbv beta iota in Hr. lia.
Qed.

Lemma int_truediv_bounded (a b k : Z) :
  b <> 0 -> 0 <= k <= 1000 -> Z.abs a < 2 ^ k ->
  exists q, PyFloat.int_truediv a b = Ok q /\ bounded_by q (k + 1).
Proof.
  intros Hb Hk Ha. unfold PyFloat.int_truediv.
  destruct (Z.eqb_spec b 0) as [|_]; [contradiction|].
  assert (forall s pa pb, Zpos pa < 2 ^ k ->
            bounded_by
              (let '(mz, ez, lz) :=
                 SFdiv_core_binary PyFloat.prec PyFloat.emax (Zpos pa) 0 (Zpos pb) 0 in
               binary_round_aux PyFloat.prec PyFloat.emax s mz ez lz) (k + 1)) as Hfin.
  { intros s pa pb Hpa.
    pose proof (SFdiv_core_binary_bounded pa pb) as H.
    destruct (SFdiv_core_binary _ _ _ _ _ _) as [[mz ez] lz].
    destruct H as (H0 & He & Hd).
    assert (Zdigits2 (Zpos pa) <= k) as HK by (apply Zdigits2_bound; lia).
    pose proof (binary_round_aux_bounded s mz ez lz k H0 ltac:(lia) ltac:(lia) ltac:(lia))
      as Hr.
    destruct (binary_round_aux _ _ _ _ _ _); unfold bounded_by; try tauto.
      cbv beta iota in Hr. lia. }
  assert (forall x, bounded_by x (k + 1) ->
                    exists q, (if PyFloat.is_overflow x then Raise OverflowError else Ok x)
                              = Ok q /\ bounded_by q (k + 1)) as Hok.
  { intros x Hx. destruct x; try contradiction; simpl; eauto. }
  apply Hok.
  destruct a as [|pa|pa], b as [|pb|pb]; try contradiction; try exact I;
    apply Hfin; lia.
Qed.

Lemma iter_xO_pow2 (m d : positive) : Zpos (Pos.iter xO m d) = Zpos m * 2 ^ Zpos d.
Proof.
  rewrite <- Z.shiftl_mul_pow2 by lia. simpl.
  apply Pos.iter_swap_gen. reflexivity.
Qed.

Lemma of_int_bounded (z k : Z) :
  0 <= k <= 1000 -> Z.abs z < 2 ^ k ->
  exists y, PyFloat.of_int z = Ok y /\ bounded_by y (k + 1).
Proof.
  intros Hk Hz. unfold PyFloat.of_int, binary_normalize.
  assert (forall s p, Zpos p < 2 ^ k ->
                      bounded_by (binary_round PyFloat.prec PyFloat.emax s p 0) (k + 1))
    as Hfin.
  { intros s p Hp. unfold binary_round, shl_align.
    assert (Zdigits2 (Zpos p) <= k) as HK by (apply Zdigits2_bound; lia).
    pose proof (Zdigits2_gt (Zpos p) ltac:(lia)) as Hgt.
    pose proof (Zdigits2_pos p) as Hd1.
    change (Zpos (digits2_pos p)) with (Zdigits2 (Zpos p)).
    rewrite fexp_binary64.
    destruct (Z.max (Zdigits2 (Zpos p) + 0 - 53) (-1074) - 0) as [|d|d] eqn:E.
    - pose proof (binary_round_aux_bounded s (Zpos p) 0 loc_Exact k
                    ltac:(lia) ltac:(lia) ltac:(lia) ltac:(lia)) as Hr.
      destruct (binary_round_aux _ _ _ _ _ _); unfold bounded_by; try tauto.
      cbv beta iota in Hr. lia.
    - pose proof (binary_round_aux_bounded s (Zpos p) 0 loc_Exact k
                    ltac:(lia) ltac:(lia) ltac:(lia) ltac:(lia)) as Hr.
      destruct (binary_round_aux _ _ _ _ _ _); unfold bounded_by; try tauto.
      cbv beta iota in Hr. lia.
    - assert (Zdigits2 (Zpos (Pos.iter xO p d)) <= Zdigits2 (Zpos p) + Zpos d) as Hsh.
      { apply Zdigits2_bound; [|lia]. rewrite iter_xO_pow2, Z.pow_add_r by lia.
        assert (0 < 2 ^ Zpos d) by (apply Z.pow_pos_nonneg; lia). nia. }
      pose proof (binary_round_aux_bounded s (Zpos (Pos.iter xO p d))
                    (Z.max (Zdigits2 (Zpos p) + 0 - 53) (-1074)) loc_Exact k
                    ltac:(lia) ltac:(lia) ltac:(lia) ltac:(lia)) as Hr.
      destruct (binary_round_aux _ _ _ _ _ _); unfold bounded_by; try tauto.
      cbv beta iota in Hr. lia. }
  assert (forall x, bounded_by x (k + 1) ->
                    exists y, (if PyFloat.is_overflow x then Raise OverflowError else Ok x)
                              = Ok y /\ bounded_by y (k + 1)) as Hok.
  { intros x Hx. destruct x; try contradiction; simpl; eauto. }
  apply Hok. destruct z as [|p|p]; [exact I| |]; apply Hfin; lia.
Qed.

(** ** [int()] truncates toward zero *)

Lemma shiftl_neg_div (m n : positive) :
  Z.shiftl (Zpos m) (Zneg n) = Zpos m / Zpos (2 ^ n).
Proof.
  change (Zneg n) with (- Zpos n). rewrite Z.shiftl_opp_r, Z.shiftr_div_pow2 by lia.
  now rewrite Pos2Z.inj_pow.
Qed.

Lemma to_Q_trunc (s : bool) (m : positive) (e : Z) :
  truncation_of (PyFloat.to_Q (S754_finite s m e)) (PyFloat.trunc s m e).
Proof.
  unfold truncation_of, PyFloat.trunc, PyFloat.to_Q.
  destruct e as [|n|n].
  - rewrite Z.shiftl_0_r. split; intros _; split; lra.
  - rewrite Z.shiftl_mul_pow2 by lia. split; intros _; split; lra.
  - rewrite shiftl_neg_div.
    pose proof (Z.div_mod (Zpos m) (Zpos (2 ^ n)) ltac:(lia)) as Hdm.
    pose proof (Z.mod_pos_bound (Zpos m) (Zpos (2 ^ n)) ltac:(lia)) as Hmod.
    set (q := Zpos m / Zpos (2 ^ n)) in *.
    set (r := Zpos m mod Zpos (2 ^ n)) in *.
    destruct s; simpl cond_Zopp; unfold Qle, Qlt, Qminus, Qplus, Qopp, inject_Z;
      simpl Qnum; simpl Qden; rewrite ?Z.mul_1_r, ?Pos.mul_1_r, ?Pos.mul_1_l;
      split; intros H; split; try lia.
Qed.

Lemma to_int_truncates (x : PyFloat.float) :
  PyFloat.is_finite x = true ->
  exists t, PyFloat.to_int x = Ok t /\ truncation_of (PyFloat.to_Q x) t.
Proof.
  destruct x as [s|s| |s m e]; simpl; try discriminate; intros _.
  - exists 0. split; [reflexivity|]. unfold truncation_of.
    change (inject_Z 0) with 0%Q. split; intros _; split; lra.
  - exists (PyFloat.trunc s m e). split; [reflexivity|]. apply to_Q_trunc.
Qed.

Lemma to_int_finite (x : PyFloat.float) (t : Z) :
  PyFloat.to_int x = Ok t -> PyFloat.is_finite x = true.
Proof. destruct x; simpl; try discriminate; reflexivity. Qed.

Lemma truncation_drift (x : Q) (t : Z) :
  truncation_of x t -> (-1 <= inject_Z t - x /\ inject_Z t - x <= 1)%Q.
Proof.
  unfold truncation_of. intros [Hp Hn].
  destruct (Qlt_le_dec x 0) as [H|H].
  - destruct (Hn (Qlt_le_weak _ _ H)). split; lra.
  - destruct (Hp H). split; lra.
Qed.

(** C4 (as the code has it): the tick counts are obtained with [int()], which
    truncates toward zero; whenever the float product is finite the
    conversion succeeds and yields the truncation of its exact value. *)
Theorem tick_conversion_truncates
        (spacing_multiplier : PyFloat.float) (bpm ticks_per_beat : Z) :
  (forall d x,
      tick_product spacing_multiplier bpm ticks_per_beat d = Ok x ->
      PyFloat.is_finite x = true ->
      exists dt,
        duration_ticks spacing_multiplier bpm ticks_per_beat d = Ok dt /\
        truncation_of (PyFloat.to_Q x) dt) /\
  (forall x,
      note_length_product bpm ticks_per_beat = Ok x ->
      PyFloat.is_finite x = true ->
      exists nl,
        note_length_ticks bpm ticks_per_beat = Ok nl /\
        truncation_of (PyFloat.to_Q x) nl).
Proof.
  split.
  - intros d x Hx Hf. unfold duration_ticks. rewrite Hx. simpl.
    now apply to_int_truncates.
  - intros x Hx Hf. unfold note_length_ticks. rewrite Hx. simpl.
    now apply to_int_truncates.
Qed.

Lemma tick_conversion_truncates_witness :
  (exists dt,
      duration_ticks f1_001 120 480 PyFloat.f2_0 = Ok dt /\
      truncation_of (PyFloat.to_Q (S754_finite false 8452693550620999 (-42))) dt) /\
  (exists nl,
      note_length_ticks 121 480 = Ok nl /\
      truncation_of (PyFloat.to_Q (S754_finite false 6811694436397875 (-46))) nl).
Proof.
  split.
  - apply (proj1 (tick_conversion_truncates f1_001 120 480) PyFloat.f2_0).
    + vm_compute. reflexivity.
    + reflexivity.
  - apply (proj2 (tick_conversion_truncates f1_001 121 480)).
    + vm_compute. reflexivity.
    + reflexivity.
Defined.

(** C4 fails as stated: at 121 bpm the note length is 96.8 ticks, which the
    code turns into 96 where [round] gives 97; with spacing 1.001 at 120 bpm
    a 2.0 s entry is 1921.92 ticks, turned into 1921 where [round] gives
    1922. *)
Lemma tick_conversion_is_not_round :
  note_length_ticks 121 480 = Ok 96 /\
  TickSpec.note_length_ticks 121 480 = Ok 97 /\
  duration_ticks f1_001 120 480 PyFloat.f2_0 = Ok 1921 /\
  TickSpec.duration_ticks f1_001 120 480 PyFloat.f2_0 = Ok 1922.
Proof. repeat split; vm_compute; reflexivity. Qed.

(** ** The event list *)

Section BuildEvents.

Variable spacing_multiplier : PyFloat.float.
Variables velocity bpm ticks_per_beat : Z.

Let dticks (d : drum) (dt : Z) : Prop :=
  duration_ticks spacing_multiplier bpm ticks_per_beat (base_duration d) = Ok dt.

Lemma build_events_ok (drums : list drum) (dts : list Z) (nl : Z) :
  Forall2 dticks drums dts ->
  note_length_ticks bpm ticks_per_beat = Ok nl ->
  forall cur acc,
    build_events spacing_multiplier velocity bpm ticks_per_beat drums cur acc
    = Ok (acc ++ layout velocity nl cur (entries_of drums dts)).
Proof.
  intros HF Hnl. induction HF as [|d dt drums dts Hd HF IH]; intros cur acc; simpl.
  - now rewrite app_nil_r.
  - unfold dticks in Hd. rewrite Hd, Hnl. simpl. rewrite IH, <- app_assoc. reflexivity.
Qed.

Lemma build_events_inv (drums : list drum) :
  forall cur acc evs,
    build_events spacing_multiplier velocity bpm ticks_per_beat drums cur acc = Ok evs ->
    exists dts nl,
      Forall2 dticks drums dts /\
      (drums = [] \/ note_length_ticks bpm ticks_per_beat = Ok nl) /\
      evs = acc ++ layout velocity nl cur (entries_of drums dts).
Proof.
  induction drums as [|d drums IH]; intros cur acc evs; simpl.
  - intros H; inversion H. exists [], 0. repeat split; [constructor|now left|].
    now rewrite app_nil_r.
  - destruct (duration_ticks _ _ _ _) as [dt|] eqn:Ed; simpl; [|discriminate].
    destruct (note_length_ticks _ _) as [nl|] eqn:En; simpl; [|discriminate].
    intros H. apply IH in H. destruct H as (dts & nl' & HF & Hnl & ->).
    exists (dt :: dts), nl. repeat split.
    + constructor; assumption.
    + now right.
    + rewrite <- app_assoc. simpl. do 3 f_equal.
      destruct Hnl as [-> | Hnl]; [reflexivity|]. inversion Hnl; reflexivity.
Qed.

End BuildEvents.

Lemma layout_length (velocity nl t : Z) (entries : list (Z * Z)) :
  List.length (layout velocity nl t entries) = (2 * List.length entries)%nat.
Proof.
  revert t. induction entries as [|[n dt] entries IH]; intros t; simpl.
  - reflexivity.
  - rewrite IH. lia.
Qed.

Lemma layout_velocities (velocity nl t : Z) (entries : list (Z * Z)) :
  Forall (fun x => match ev_type x with
                   | note_off => ev_vel x = 0
                   | note_on => ev_vel x = velocity
                   end)
         (layout velocity nl t entries).
Proof.
  revert t. induction entries as [|[n dt] entries IH]; intros t; simpl.
  - constructor.
  - repeat constructor. apply IH.
Qed.

Lemma layout_ticks_from (velocity nl t : Z) (entries : list (Z * Z)) :
  0 <= nl -> Forall (fun e => 0 <= snd e) entries ->
  Forall (fun x => t <= ev_tick x) (layout velocity nl t entries).
Proof.
  intros Hnl HF. revert t.
  induction HF as [|[n dt] entries Hdt HF IH]; intros t; simpl.
  - constructor.
  - simpl in Hdt. constructor; [simpl; lia|]. constructor; [simpl; lia|].
    eapply Forall_impl; [|apply IH]. simpl. intros x Hx. lia.
Qed.

(** The events of entry [i] sit at positions [2i] and [2i+1]. *)
Lemma layout_nth (velocity nl : Z) (entries : list (Z * Z)) :
  forall (t : Z) (i : nat) (note dt : Z),
    nth_error entries i = Some (note, dt) ->
    let start := t + fold_right Z.add 0 (map snd (firstn i entries)) in
    nth_error (layout velocity nl t entries) (2 * i)
    = Some (mk_event start note_on note velocity) /\
    nth_error (layout velocity nl t entries) (2 * i + 1)
    = Some (mk_event (start + nl) note_off note 0).
Proof.
  induction entries as [|[n0 dt0] entries IH]; intros t i note dt.
  - destruct i; discriminate.
  - destruct i as [|i]; simpl.
    + intros H. inversion H; subst. rewrite Z.add_0_r. split; reflexivity.
    + intros H. specialize (IH (t + dt0) i note dt H). simpl in IH.
      replace (i + S (i + 0))%nat with (S (2 * i)) by lia. simpl.
      replace (t + (dt0 + fold_right Z.add 0 (map snd (firstn i entries))))
        with (t + dt0 + fold_right Z.add 0 (map snd (firstn i entries))) by lia.
      replace (i + (i + 0))%nat with (2 * i)%nat by lia.
      replace (2 * i + 1)%nat with (S (2 * i)) in IH by lia.
      exact IH.
Qed.

(** ** Delta times *)

Lemma delta_messages_length (evs : list event) (last : Z) :
  List.length (delta_messages evs last) = List.length evs.
Proof. revert last. induction evs; intros; simpl; congruence. Qed.

Lemma delta_messages_fields (evs : list event) :
  forall last, map (fun m => (msg_kind m, msg_note m, msg_velocity m)) (delta_messages evs last)
               = map (fun x => (ev_type x, ev_note x, ev_vel x)) evs.
Proof. induction evs as [|x evs IH]; intros last; simpl; [|rewrite IH]; reflexivity. Qed.

Lemma delta_messages_In (evs : list event) (m : Message) :
  forall last, In m (delta_messages evs last) ->
               exists x, In x evs /\ msg_kind m = ev_type x /\
                         msg_note m = ev_note x /\ msg_velocity m = ev_vel x.
Proof.
  induction evs as [|x evs IH]; intros last; simpl; [tauto|].
  intros [<- | H].
  - exists x. simpl. auto.
  - destruct (IH _ H) as (y & Hy & Hr). exists y. auto.
Qed.

Lemma delta_messages_nth (evs : list event) :
  forall (last : Z) (k : nat),
    (k < List.length evs)%nat ->
    nth k (map msg_time (delta_messages evs last)) 0
    = nth k (map ev_tick evs) 0
      - match k with
        | O => last
        | S j => nth j (map ev_tick evs) 0
        end.
Proof.
  induction evs as [|x evs IH]; intros last k Hk; simpl in Hk; [lia|].
  destruct k as [|k]; simpl; [reflexivity|].
  rewrite IH by lia. destruct k; reflexivity.
Qed.

Lemma absolute_times_delta (evs : list event) :
  forall last, absolute_times (map msg_time (delta_messages evs last)) last
               = map ev_tick evs.
Proof.
  induction evs as [|x evs IH]; intros last; simpl; [reflexivity|].
  replace (last + (ev_tick x - last)) with (ev_tick x) by lia.
  now rewrite IH.
Qed.

Lemma delta_messages_nonneg (evs : list event) :
  StronglySorted event_le evs ->
  forall last, Forall (fun x => last <= ev_tick x) evs ->
               Forall (fun m => 0 <= msg_time m) (delta_messages evs last).
Proof.
  induction 1 as [|x evs Hs IH Hx]; intros last Hl; simpl; constructor.
  - simpl. inversion Hl; subst. lia.
  - apply IH. eapply Forall_impl; [|exact Hx]. intros y. apply event_le_tick.
Qed.

Lemma sorted_ticks (evs : list event) :
  StronglySorted event_le evs -> StronglySorted Z.le (map ev_tick evs).
Proof.
  induction 1 as [|x evs Hs IH Hx]; simpl; constructor; [exact IH|].
  apply Forall_map. eapply Forall_impl; [|exact Hx]. intros y. apply event_le_tick.
Qed.

(** ** The sequencer succeeds on bounded parameters *)

Lemma f0_1_bounded : bounded_by PyFloat.f0_1 0.
Proof. simpl. lia. Qed.

Lemma get_duration_for_sound_bounded (name : string) :
  bounded_by (get_duration_for_sound name) 3.
Proof.
  unfold get_duration_for_sound.
  repeat match goal with
         | |- context [if ?c then _ else _] => destruct c
         end; simpl; lia.
Qed.

Section Bounded.

Variable spacing_multiplier : PyFloat.float.
Variables bpm ticks_per_beat A : Z.

Hypothesis A_range : 0 <= A <= 900.
Hypothesis spacing_bounded : bounded_by spacing_multiplier A.
Hypothesis bpm_bounded : Z.abs bpm < 2 ^ 31.
Hypothesis ticks_per_beat_bounded : Z.abs ticks_per_beat < 2 ^ 31.

Lemma tick_product_ok (d : PyFloat.float) :
bounded_by d 3 ->
exists x, tick_product spacing_multiplier bpm ticks_per_beat d = Ok x /\
          bounded_by x (A + 70).
Proof.
intros Hd. unfold tick_product, PyFloat.mul_int.
destruct (int_truediv_bounded bpm 60 31 ltac:(lia) ltac:(lia) bpm_bounded)
  as (q & -> & Hq).
destruct (of_int_bounded ticks_per_beat 31 ltac:(lia) ticks_per_beat_bounded)
  as (t & -> & Ht).
simpl. eexists. split; [reflexivity|].
pose proof (mul_bounded _ _ 3 A ltac:(lia) ltac:(lia) ltac:(lia) Hd spacing_bounded) as H1.
pose proof (mul_bounded _ _ (3 + A + 1) (31 + 1)
                        ltac:(lia) ltac:(lia) ltac:(lia) H1 Hq) as H2.
pose proof (mul_bounded _ _ (3 + A + 1 + (31 + 1) + 1) (31 + 1)
                        ltac:(lia) ltac:(lia) ltac:(lia) H2 Ht) as H3.
eapply bounded_by_mono; [|exact H3]. lia.
Qed.

Lemma duration_ticks_ok (d : PyFloat.float) :
bounded_by d 3 ->
exists dt, duration_ticks spacing_multiplier bpm ticks_per_beat d = Ok dt.
Proof.
intros Hd. unfold duration_ticks.
destruct (tick_product_ok d Hd) as (x & -> & Hx). simpl.
destruct (to_int_truncates x (bounded_by_finite _ _ Hx)) as (dt & Hdt & _).
now exists dt.
Qed.

Lemma note_length_ticks_ok : exists nl, note_length_ticks bpm ticks_per_beat = Ok nl.
Proof.
unfold note_length_ticks, note_length_product, PyFloat.mul_int.
destruct (int_truediv_bounded bpm 60 31 ltac:(lia) ltac:(lia) bpm_bounded)
  as (q & -> & Hq).
destruct (of_int_bounded ticks_per_beat 31 ltac:(lia) ticks_per_beat_bounded)
  as (t & -> & Ht).
simpl.
pose proof (mul_bounded _ _ 0 (31 + 1)
                        ltac:(lia) ltac:(lia) ltac:(lia) f0_1_bounded Hq) as H1.
pose proof (mul_bounded _ _ (0 + (31 + 1) + 1) (31 + 1)
                        ltac:(lia) ltac:(lia) ltac:(lia) H1 Ht) as H2.
destruct (to_int_truncates _ (bounded_by_finite _ _ H2)) as (nl & Hnl & _).
now exists nl.
Qed.

Lemma build_events_succeeds (velocity : Z) (drums : list drum) :
Forall (fun d => bounded_by (base_duration d) 3) drums ->
exists events,
  build_events spacing_multiplier velocity bpm ticks_per_beat drums
               (lead_in_ticks ticks_per_beat) [] = Ok events.
Proof.
intros HF.
assert (exists dts,
           Forall2 (fun d dt =>
                      duration_ticks spacing_multiplier bpm ticks_per_beat
                                     (base_duration d) = Ok dt) drums dts)
  as [dts Hdts].
{ induction HF as [|d drums Hd HF [dts IH]].
  - exists []. constructor.
  - destruct (duration_ticks_ok _ Hd) as [dt Hdt].
    exists (dt :: dts). now constructor. }
destruct note_length_ticks_ok as [nl Hnl].
eexists. apply (build_events_ok _ velocity _ _ _ _ _ Hdts Hnl).
Qed.

End Bounded.

Lemma event_le_in_order (x y : event) : event_le x y <-> in_order x y.
Proof.
  unfold event_le, key_le, key_ltb, event_key, in_order; simpl.
  rewrite orb_false_iff, andb_false_iff, Z.ltb_ge, Z.eqb_neq, Z.ltb_ge.
  destruct (Z.eq_dec (ev_tick x) (ev_tick y)) as [E|E];
    destruct (ev_type x), (ev_type y);
    intuition (try lia; try congruence).
Qed.

Lemma sorted_in_order (evs : list event) :
  StronglySorted event_le evs -> StronglySorted in_order evs.
Proof.
  induction 1 as [|x evs Hs IH Hx]; constructor; [exact IH|].
  eapply Forall_impl; [|exact Hx]. intros y. apply event_le_in_order.
Qed.

Lemma note_length_ticks_nonneg (bpm ticks_per_beat nl : Z) :
  0 < bpm -> 0 < ticks_per_beat ->
  note_length_ticks bpm ticks_per_beat = Ok nl -> 0 <= nl.
Proof.
  intros Hb Ht. unfold note_length_ticks, note_length_product, PyFloat.mul_int.
  destruct (PyFloat.int_truediv bpm 60) as [q|] eqn:Eq; simpl; [|discriminate].
  destruct (PyFloat.of_int ticks_per_beat) as [t|] eqn:Et; simpl; [|discriminate].
  destruct (PyFloat.mul (PyFloat.mul PyFloat.f0_1 q) t) as [s|s| |s m e] eqn:E;
    simpl; try discriminate.
  - intros H; inversion H; lia.
  - intros Hnl; inversion Hnl as [Hnl']; clear Hnl Hnl'.
    apply mul_finite_sign in E.
    destruct E as (s1 & m1 & e1 & st & mt & et & Hm & -> & ->).
    apply mul_finite_sign in Hm.
    destruct Hm as (s0 & m0 & e0 & sq & mq & eq' & H0 & -> & ->).
    apply of_int_finite_sign in Et. apply int_truediv_finite_sign in Eq.
    inversion H0; subst s0.
    assert ((bpm <? 0) = false) as Hb' by (apply Z.ltb_ge; lia).
    assert ((ticks_per_beat <? 0) = false) as Ht' by (apply Z.ltb_ge; lia).
    rewrite Hb' in Eq. rewrite Ht' in Et. subst. simpl.
    unfold PyFloat.trunc; simpl. apply Z.shiftl_nonneg. lia.
Qed.

Lemma Forall2_nth_error {A B : Type} (P : A -> B -> Prop) (l : list A) (l' : list B) :
  Forall2 P l l' ->
  forall i a, nth_error l i = Some a -> exists b, nth_error l' i = Some b /\ P a b.
Proof.
  induction 1 as [|x y l l' Hxy HF IH]; intros i a; destruct i; simpl; try discriminate.
  - intros H; inversion H; subst. now exists y.
  - apply IH.
Qed.

Lemma entries_of_nth (drums : list drum) (dts : list Z) (i : nat) (d : drum) (dt : Z) :
  nth_error drums i = Some d -> nth_error dts i = Some dt ->
  nth_error (entries_of drums dts) i = Some (drum_note d, dt).
Proof.
  unfold entries_of. revert dts i.
  induction drums as [|d0 drums IH]; intros dts i; destruct i, dts; simpl; try discriminate.
  - intros H1 H2; inversion H1; inversion H2; reflexivity.
  - apply IH.
Qed.

Lemma entries_of_snd (drums : list drum) (dts : list Z) :
  List.length drums = List.length dts -> map snd (entries_of drums dts) = dts.
Proof.
  unfold entries_of. revert dts.
  induction drums as [|d0 drums IH]; intros [|dt dts]; simpl; try discriminate; auto.
  intros H. f_equal. apply IH. lia.
Qed.

Lemma sum_firstn_succ (l : list Z) (i : nat) (x : Z) :
  nth_error l i = Some x ->
  fold_right Z.add 0 (firstn (S i) l) = fold_right Z.add 0 (firstn i l) + x.
Proof.
  revert i. induction l as [|y l IH]; intros [|i]; simpl; try discriminate.
  - intros H; inversion H. destruct l; simpl; lia.
  - intros H. apply IH in H. simpl in H. rewrite H. lia.
Qed.

(** ** The sequencer *)

Lemma final_track_of_events (spacing_multiplier : PyFloat.float)
      (velocity bpm ticks_per_beat tempo : Z) (drums : list drum) (events : list event) :
  build_events spacing_multiplier velocity bpm ticks_per_beat drums
               (lead_in_ticks ticks_per_beat) [] = Ok events ->
  final_track spacing_multiplier velocity bpm ticks_per_beat tempo drums
  = Ok ([set_tempo tempo; track_name "Logic Drum Export"]
          ++ map note_msg (delta_messages (sort_by event_key key_ltb events) 0)
          ++ [end_of_track ticks_per_beat]).
Proof. intros H. unfold final_track, sorted_events. rewrite H. reflexivity. Qed.

Lemma final_track_inv (spacing_multiplier : PyFloat.float)
      (velocity bpm ticks_per_beat tempo : Z) (drums : list drum) (track : list track_msg) :
  final_track spacing_multiplier velocity bpm ticks_per_beat tempo drums = Ok track ->
  exists events,
    build_events spacing_multiplier velocity bpm ticks_per_beat drums
                 (lead_in_ticks ticks_per_beat) [] = Ok events /\
    track = [set_tempo tempo; track_name "Logic Drum Export"]
              ++ map note_msg (delta_messages (sort_by event_key key_ltb events) 0)
              ++ [end_of_track ticks_per_beat].
Proof.
  unfold final_track, sorted_events.
  destruct (build_events _ _ _ _ _ _ _) as [events|]; simpl; [|discriminate].
  intros H; inversion H. now exists events.
Qed.

(** C10: in every track the sequencer produces, a [note_off] message carries
    velocity 0 and a [note_on] message carries the caller's [velocity],
    whatever the drum sequence and the velocity are. *)
Theorem note_off_velocity_is_zero
        (spacing_multiplier : PyFloat.float) (velocity bpm ticks_per_beat tempo : Z)
        (drum_mapping : list drum) (track : list track_msg) (m : Message) :
  final_track spacing_multiplier velocity bpm ticks_per_beat tempo drum_mapping
  = Ok track ->
  In (note_msg m) track ->
  match msg_kind m with
  | note_off => msg_velocity m = 0
  | note_on => msg_velocity m = velocity
  end.
Proof.
  intros Ht Hin. apply final_track_inv in Ht. destruct Ht as (events & Hb & ->).
  apply build_events_inv in Hb. destruct Hb as (dts & nl & _ & _ & ->).
  simpl in Hin. destruct Hin as [Hin|[Hin|Hin]]; try discriminate.
  apply in_app_or in Hin. destruct Hin as [Hin|[Hin|[]]]; [|discriminate].
  apply in_map_iff in Hin. destruct Hin as (m' & Hm & Hin). inversion Hm; subst m'.
  apply delta_messages_In in Hin. destruct Hin as (x & Hx & Hk & _ & Hv).
  pose proof (layout_velocities velocity nl (lead_in_ticks ticks_per_beat)
                                (entries_of drum_mapping dts)) as HF.
  apply (sort_by_Forall event_key key_ltb) in HF.
  rewrite Forall_forall in HF. specialize (HF x Hx).
  rewrite Hk, Hv. exact HF.
Qed.

Lemma entries_nonneg (spacing_multiplier : PyFloat.float) (bpm ticks_per_beat : Z)
      (drums : list drum) (dts : list Z) :
  PyFloat.gt_zero spacing_multiplier = true ->
  0 < bpm ->
  0 < ticks_per_beat ->
  Forall (fun d => PyFloat.gt_zero (base_duration d) = true) drums ->
  Forall2 (fun d dt => duration_ticks spacing_multiplier bpm ticks_per_beat
                                      (base_duration d) = Ok dt) drums dts ->
  Forall (fun e => 0 <= snd e) (entries_of drums dts).
Proof.
  intros Hs Hb Ht Hd HF. unfold entries_of.
  induction HF as [|d dt drums dts Hdt HF IH]; simpl; [constructor|].
  inversion Hd; subst. constructor; [|now apply IH].
  simpl. now apply (duration_ticks_nonneg spacing_multiplier bpm ticks_per_beat Hs Hb Ht
                                          (base_duration d)).
Qed.



Lemma note_off_velocity_is_zero_witness :
  match msg_kind (mk_Message note_off 36 0 96) with
  | note_off => msg_velocity (mk_Message note_off 36 0 96) = 0
  | note_on => msg_velocity (mk_Message note_off 36 0 96) = 100
  end.
Proof.
  apply (note_off_velocity_is_zero PyFloat.f1_0 100 120 480 500000 [kick]
           [set_tempo 500000; track_name "Logic Drum Export";
            note_msg (mk_Message note_on 36 100 480);
            note_msg (mk_Message note_off 36 0 96);
            end_of_track 480]).
  - vm_compute. reflexivity.
  - simpl. auto.
Defined.

(** C6: for consecutive entries [i] and [i+1] of any drum sequence, when
    entry [i]'s spacing in ticks is at least the note length in ticks, the
    [note_off] of entry [i] is not later than the [note_on] of entry [i+1]. *)
Theorem consecutive_triggers_do_not_overlap
        (spacing_multiplier : PyFloat.float) (velocity bpm ticks_per_beat : Z)
        (drum_mapping : list drum) (events : list event)
        (i : nat) (d d' : drum) (dt nl : Z) :
  build_events spacing_multiplier velocity bpm ticks_per_beat drum_mapping
               (lead_in_ticks ticks_per_beat) [] = Ok events ->
  nth_error drum_mapping i = Some d ->
  nth_error drum_mapping (S i) = Some d' ->
  duration_ticks spacing_multiplier bpm ticks_per_beat (base_duration d) = Ok dt ->
  note_length_ticks bpm ticks_per_beat = Ok nl ->
  nl <= dt ->
  exists off next_on,
    nth_error events (2 * i + 1) = Some off /\
    nth_error events (2 * S i) = Some next_on /\
    ev_type off = note_off /\ ev_note off = drum_note d /\
    ev_type next_on = note_on /\ ev_note next_on = drum_note d' /\
    ev_tick off <= ev_tick next_on.
Proof.
  intros Hev Hi Hi' Hdt Hnl Hle.
  destruct (build_events_inv _ _ _ _ _ _ _ _ Hev) as (dts & nl' & HF & Hnl' & ->).
  destruct Hnl' as [-> | Hnl']; [destruct i; discriminate|].
  assert (nl' = nl) as -> by congruence.
  destruct (Forall2_nth_error _ _ _ HF _ _ Hi) as (dt0 & Hdt0 & Hd0).
  simpl in Hd0. assert (dt0 = dt) as -> by congruence.
  destruct (Forall2_nth_error _ _ _ HF _ _ Hi') as (dt' & Hdt' & _).
  pose proof (entries_of_nth _ _ _ _ _ Hi Hdt0) as He.
  pose proof (entries_of_nth _ _ _ _ _ Hi' Hdt') as He'.
  destruct (layout_nth velocity nl _ (lead_in_ticks ticks_per_beat) _ _ _ He) as [_ Hoff].
  destruct (layout_nth velocity nl _ (lead_in_ticks ticks_per_beat) _ _ _ He') as [Hon _].
  eexists; eexists.
  split; [exact Hoff|]. split; [exact Hon|].
  repeat (split; [reflexivity|]). cbn [ev_tick].
  rewrite <- !firstn_map, (sum_firstn_succ _ i dt).
  - lia.
  - rewrite entries_of_snd; [exact Hdt0|]. eapply Forall2_length; eassumption.
Qed.

Lemma consecutive_triggers_do_not_overlap_witness :
  exists off next_on,
    nth_error [mk_event 480 note_on 36 127; mk_event 576 note_off 36 0;
               mk_event 2400 note_on 49 127; mk_event 2496 note_off 49 0] 1 = Some off /\
    nth_error [mk_event 480 note_on 36 127; mk_event 576 note_off 36 0;
               mk_event 2400 note_on 49 127; mk_event 2496 note_off 49 0] 2 = Some next_on /\
    ev_type off = note_off /\ ev_note off = 36 /\
    ev_type next_on = note_on /\ ev_note next_on = 49 /\
    ev_tick off <= ev_tick next_on.
Proof.
  assert (build_events PyFloat.f1_0 127 120 480 [kick; crash] (lead_in_ticks 480) []
          = Ok [mk_event 480 note_on 36 127; mk_event 576 note_off 36 0;
                mk_event 2400 note_on 49 127; mk_event 2496 note_off 49 0])
    as He by (vm_compute; reflexivity).
  assert (duration_ticks PyFloat.f1_0 120 480 (base_duration kick) = Ok 1920)
    as Hd by (vm_compute; reflexivity).
  assert (note_length_ticks 120 480 = Ok 96) as Hn by (vm_compute; reflexivity).
  assert (96 <= 1920) as Hle by lia.
  exact (consecutive_triggers_do_not_overlap PyFloat.f1_0 127 120 480 [kick; crash] _
           0%nat kick crash 1920 96 He eq_refl eq_refl Hd Hn Hle).
Defined.

(** ** Ticks against exact durations *)

Lemma duration_ticks_drift (spacing_multiplier : PyFloat.float) (bpm ticks_per_beat : Z)
      (d : drum) (dt : Z) :
  duration_ticks spacing_multiplier bpm ticks_per_beat (base_duration d) = Ok dt ->
  (-1 <= inject_Z dt - tick_product_Q spacing_multiplier bpm ticks_per_beat d /\
   inject_Z dt - tick_product_Q spacing_multiplier bpm ticks_per_beat d <= 1)%Q.
Proof.
  unfold duration_ticks, tick_product_Q.
  destruct (tick_product _ _ _ _) as [x|]; simpl; [|discriminate].
  intros H. apply truncation_drift.
  destruct (to_int_truncates x (to_int_finite _ _ H)) as (t & Ht & Hx).
  congruence.
Qed.

Lemma sum_drift (spacing_multiplier : PyFloat.float) (bpm ticks_per_beat : Z)
      (drums : list drum) (dts : list Z) :
  Forall2 (fun d dt => duration_ticks spacing_multiplier bpm ticks_per_beat
                                      (base_duration d) = Ok dt) drums dts ->
  forall i : nat,
    let exact := Qsum (map (tick_product_Q spacing_multiplier bpm ticks_per_beat)
                           (firstn i drums)) in
    let ticks := fold_right Z.add 0 (firstn i dts) in
    (- inject_Z (Z.of_nat i) <= inject_Z ticks - exact /\
     inject_Z ticks - exact <= inject_Z (Z.of_nat i))%Q.
Proof.
  induction 1 as [|d dt drums dts Hd HF IH]; intros i.
  - rewrite !firstn_nil. simpl. change (inject_Z 0) with 0%Q.
    assert (0 <= inject_Z (Z.of_nat i))%Q
      by (rewrite <- (Zle_Qle 0); lia).
    split; lra.
  - destruct i as [|i].
    + simpl. change (inject_Z 0) with 0%Q. split; lra.
    + specialize (IH i). cbv zeta in IH. apply duration_ticks_drift in Hd.
      unfold Qsum in *. cbn [firstn map fold_right].
      rewrite Nat2Z.inj_succ, <- Z.add_1_r, !inject_Z_plus.
      change (inject_Z 1) with 1%Q. lra.
Qed.




(** ** One entry *)

(** C2 (as the code has it): one entry of base duration 2.0 with spacing 1.0,
    120 bpm and 480 ticks per beat gives a [note_on] at tick 480, its
    [note_off] at tick 480 + 96 (100 ms are 96 ticks at this tempo) and the
    end-of-track marker one beat after that last event, at tick
    480 + 96 + 480. *)
Theorem single_entry_track (note velocity tempo : Z) (name : string) :
  final_track PyFloat.f1_0 velocity 120 480 tempo [mk_drum note name PyFloat.f2_0]
  = Ok [set_tempo tempo; track_name "Logic Drum Export";
        note_msg (mk_Message note_on note velocity 480);
        note_msg (mk_Message note_off note 0 96);
        end_of_track 480] /\
  absolute_times
    (map delta_time
         [set_tempo tempo; track_name "Logic Drum Export";
          note_msg (mk_Message note_on note velocity 480);
          note_msg (mk_Message note_off note 0 96);
          end_of_track 480]) 0
  = [0; 0; 480; 480 + 96; 480 + 96 + 480].
Proof. split; vm_compute; reflexivity. Qed.

(** C2 fails as stated: the [note_off] is at tick 576, not 480 + 48, and the
    end-of-track marker at tick 1056, not 480 + 960 + 480. *)
Lemma single_entry_is_not_528_1920 :
  match final_track PyFloat.f1_0 127 120 480 500000 [kick] with
  | Ok track =>
      absolute_times (map delta_time track) 0 = [0; 0; 480; 576; 1056] /\
      576 <> 480 + 48 /\
      1056 <> 480 + 960 + 480
  | Raise _ => False
  end.
Proof. vm_compute. repeat split; discriminate. Qed.

(** ** Failure *)

Lemma tick_product_raises (spacing_multiplier : PyFloat.float) (bpm ticks_per_beat : Z)
      (d : PyFloat.float) (e : exn) :
  tick_product spacing_multiplier bpm ticks_per_beat d = Raise e -> e = OverflowError.
Proof.
  unfold tick_product, PyFloat.mul_int, PyFloat.int_truediv, PyFloat.of_int.
  change (60 =? 0) with false. cbv iota.
  destruct (PyFloat.is_overflow (SFdiv _ _ _ _)); simpl; [congruence|].
  destruct (PyFloat.is_overflow (binary_normalize _ _ _ _ _)); simpl; congruence.
Qed.

Lemma to_int_raises (x : PyFloat.float) (e : exn) :
  PyFloat.to_int x = Raise e -> e = OverflowError \/ e = ValueError.
Proof. destruct x; simpl; intros H; inversion H; auto. Qed.

Lemma duration_ticks_raises (spacing_multiplier : PyFloat.float) (bpm ticks_per_beat : Z)
      (d : PyFloat.float) (e : exn) :
  duration_ticks spacing_multiplier bpm ticks_per_beat d = Raise e ->
  e = OverflowError \/ e = ValueError.
Proof.
  unfold duration_ticks.
  destruct (tick_product _ _ _ _) as [x|e'] eqn:E; simpl.
  - apply to_int_raises.
  - intros H; inversion H; subst. left. eapply tick_product_raises; eassumption.
Qed.

Lemma note_length_ticks_raises (bpm ticks_per_beat : Z) (e : exn) :
  note_length_ticks bpm ticks_per_beat = Raise e ->
  e = OverflowError \/ e = ValueError.
Proof.
  unfold note_length_ticks.
  destruct (note_length_product _ _) as [x|e'] eqn:E; simpl.
  - apply to_int_raises.
  - intros H; inversion H; subst. left. revert E.
    unfold note_length_product, PyFloat.mul_int, PyFloat.int_truediv, PyFloat.of_int.
    change (60 =? 0) with false. cbv iota.
    destruct (PyFloat.is_overflow (SFdiv _ _ _ _)); simpl; [congruence|].
    destruct (PyFloat.is_overflow (binary_normalize _ _ _ _ _)); simpl; congruence.
Qed.

Lemma build_events_raises (spacing_multiplier : PyFloat.float)
      (velocity bpm ticks_per_beat : Z) (drums : list drum) (e : exn) :
  forall cur acc,
    build_events spacing_multiplier velocity bpm ticks_per_beat drums cur acc = Raise e ->
    e = OverflowError \/ e = ValueError.
Proof.
  induction drums as [|d drums IH]; intros cur acc; simpl; [discriminate|].
  destruct (duration_ticks _ _ _ _) as [dt|e1] eqn:Ed; simpl.
  - destruct (note_length_ticks _ _) as [nl|e2] eqn:En; simpl.
    + apply IH.
    + intros H; inversion H; subst. eapply note_length_ticks_raises; eassumption.
  - intros H; inversion H; subst. eapply duration_ticks_raises; eassumption.
Qed.




(** ** The classifier *)

Lemma lower_char_idempotent (c : ascii) :
  PyStr.lower_char (PyStr.lower_char c) = PyStr.lower_char c.
Proof. destruct c as [[] [] [] [] [] [] [] []]; reflexivity. Qed.

Lemma lower_upper_char (c : ascii) :
  PyStr.lower_char (PyStr.upper_char c) = PyStr.lower_char c.
Proof. destruct c as [[] [] [] [] [] [] [] []]; reflexivity. Qed.

Lemma lower_idempotent (s : string) : PyStr.lower (PyStr.lower s) = PyStr.lower s.
Proof.
  induction s as [|c s IH]; simpl; [reflexivity|].
  now rewrite lower_char_idempotent, IH.
Qed.

Lemma lower_upper (s : string) : PyStr.lower (PyStr.upper s) = PyStr.lower s.
Proof.
  induction s as [|c s IH]; simpl; [reflexivity|].
  now rewrite lower_upper_char, IH.
Qed.

Lemma get_duration_for_sound_lower (a b : string) :
  PyStr.lower a = PyStr.lower b -> get_duration_for_sound a = get_duration_for_sound b.
Proof. unfold get_duration_for_sound. now intros ->. Qed.

Lemma startswith_spec (w s : string) :
  PyStr.startswith w s = true <-> exists post, s = (w ++ post)%string.
Proof.
  revert s. induction w as [|a w IH]; intros s; simpl.
  - split; [intros _; now exists s | reflexivity].
  - destruct s as [|b s].
    + split; [discriminate | intros [post H]; discriminate].
    + rewrite andb_true_iff, Ascii.eqb_eq, IH. split.
      * intros [-> [post ->]]. now exists post.
      * intros [post H]. inversion H; subst. split; [reflexivity | now exists post].
Qed.

(** [w in s] holds exactly when [s] is [pre ++ w ++ post]. *)
Lemma contains_spec (w s : string) :
  PyStr.contains w s = true <-> exists pre post, s = (pre ++ w ++ post)%string.
Proof.
  induction s as [|c s IH].
  - simpl. rewrite orb_false_r, startswith_spec. split.
    + intros [post H]. now exists EmptyString, post.
    + intros [[|c pre] [post H]]; [now exists post | discriminate].
  - cbn [PyStr.contains]. rewrite orb_true_iff, startswith_spec, IH. split.
    + intros [[post H] | [pre [post H]]].
      * now exists EmptyString, post.
      * exists (String c pre), post. simpl. now rewrite H.
    + intros [[|c' pre] [post H]].
      * left. now exists post.
      * right. inversion H; subst. now exists pre, post.
Qed.

(** C9: the classifier is a total function that decides by the first rule of
    the ordered table that matches the lower-cased name, with 2.0 as the
    default; a keyword matches when it occurs as a substring; the result does
    not depend on the case of the name; and it is the listed value on each of
    the five sample names. *)
Theorem get_duration_for_sound_is_first_match :
  (forall name, get_duration_for_sound name = ClassifierSpec.classify name) /\
  (forall w s,
      PyStr.contains w s = true <-> exists pre post, s = (pre ++ w ++ post)%string) /\
  (forall name,
      get_duration_for_sound (PyStr.upper name) = get_duration_for_sound name /\
      get_duration_for_sound (PyStr.lower name) = get_duration_for_sound name) /\
  get_duration_for_sound "Crash Cymbal 1" = PyFloat.f5_0 /\
  get_duration_for_sound "Closed Hi-Hat" = PyFloat.f2_0 /\
  get_duration_for_sound "Open Hi-Hat" = PyFloat.f3_0 /\
  get_duration_for_sound "Kick" = PyFloat.f2_0 /\
  get_duration_for_sound "Unknown Weird Name" = PyFloat.f2_0.
Proof.
  split; [|split; [exact contains_spec|split; [|repeat split; reflexivity]]].
  - intros name.
    unfold get_duration_for_sound, ClassifierSpec.classify, ClassifierSpec.rules,
      ClassifierSpec.first_match, ClassifierSpec.has_any, ClassifierSpec.has_all,
      ClassifierSpec.default, PyStr.any_in.
    cbn [existsb forallb].
    rewrite ?orb_false_r, ?andb_true_r. reflexivity.
  - intros name. split; apply get_duration_for_sound_lower.
    + apply lower_upper.
    + apply lower_idempotent.
Qed.

(** ** The mapping loader *)

Lemma load_array_map (items : list item) :
  load_array items = map (fun it => drum_of (item_note it) (item_name it)) items.
Proof.
  unfold load_array.
  assert (forall acc,
             fold_left
               (fun drum_list it =>
                  drum_list ++ [mk_drum (item_note it) (item_name it)
                                        (get_duration_for_sound (item_name it))])
               items acc
             = acc ++ map (fun it => drum_of (item_note it) (item_name it)) items) as H.
  { induction items as [|it items IH]; intros acc; simpl.
    - now rewrite app_nil_r.
    - rewrite IH, <- app_assoc. reflexivity. }
  apply (H []).
Qed.

Lemma load_object_ok (entries : list (string * string)) (notes : list Z) :
  Forall2 (fun e n => PyInt.of_str (fst e) = Ok n) entries notes ->
  forall acc, load_object entries acc = Ok (acc ++ converted notes entries).
Proof.
  unfold converted.
  induction 1 as [|[k name] n entries notes Hk HF IH]; intros acc; simpl.
  - now rewrite app_nil_r.
  - simpl in Hk. rewrite Hk. simpl. rewrite IH, <- app_assoc. reflexivity.
Qed.

Lemma converted_durations (notes : list Z) (entries : list (string * string)) :
  Forall (fun d => base_duration d = get_duration_for_sound (drum_name d))
         (converted notes entries).
Proof. unfold converted. apply Forall_map, Forall_forall. reflexivity. Qed.

Lemma ltb_asym (a b : Z) : (a <? b) = true -> (b <? a) = false.
Proof. rewrite Z.ltb_lt, Z.ltb_ge. lia. Qed.

Lemma leb_trans (a b c : Z) : (b <? a) = false -> (c <? b) = false -> (c <? a) = false.
Proof. rewrite !Z.ltb_ge. lia. Qed.

Lemma StronglySorted_weaken {A : Type} (R R' : A -> A -> Prop) (l : list A) :
  (forall x y, R x y -> R' x y) -> StronglySorted R l -> StronglySorted R' l.
Proof.
  intros HR. induction 1 as [|x l Hs IH Hx]; constructor; [exact IH|].
  eapply Forall_impl; [|exact Hx]. apply HR.
Qed.



(** ** The timing report *)

Lemma timing_loop_length (spacing_multiplier : PyFloat.float) (drums : list drum) :
  forall i cur,
    List.length (timing_loop spacing_multiplier drums i cur) = List.length drums.
Proof. induction drums as [|d drums IH]; intros i cur; simpl; [|rewrite IH]; reflexivity. Qed.

Lemma timing_loop_nth (spacing_multiplier : PyFloat.float) (drums : list drum) :
  forall (i : Z) (cur : PyFloat.float) (k : nat) (d : drum),
    nth_error drums k = Some d ->
    nth_error (timing_loop spacing_multiplier drums i cur) k
    = Some (mk_timing (i + Z.of_nat k) (drum_note d) (drum_name d)
                      (start_seconds spacing_multiplier cur drums k)
                      (PyFloat.mul (base_duration d) spacing_multiplier)).
Proof.
  induction drums as [|d0 drums IH]; intros i cur k d; destruct k as [|k];
    try discriminate.
  - simpl. intros H; inversion H; subst. rewrite Z.add_0_r. reflexivity.
  - cbn [nth_error timing_loop]. intros H. rewrite (IH _ _ _ _ H).
    unfold start_seconds. cbn [firstn map fold_left].
    do 2 f_equal. lia.
Qed.

Lemma digit_char_is_digit (d : Z) : 0 <= d < 10 -> is_digit (PyFormat.digit_char d) = true.
Proof.
  intros H.
  assert (d = 0 \/ d = 1 \/ d = 2 \/ d = 3 \/ d = 4 \/ d = 5 \/ d = 6 \/ d = 7 \/
          d = 8 \/ d = 9) as Hd by lia.
  repeat (destruct Hd as [-> | Hd]; [reflexivity|]). subst; reflexivity.
Qed.

Lemma four_digits_shape (n : Z) :
  String.length (PyFormat.four_digits n) = 4%nat /\
  all_digits (PyFormat.four_digits n) = true.
Proof.
  split; [reflexivity|].
  unfold PyFormat.four_digits. cbn [all_digits].
  rewrite !digit_char_is_digit; [reflexivity| | | |]; apply Z.mod_pos_bound; lia.
Qed.

Lemma div_half_even_nonneg (n d : Z) : 0 <= n -> 0 < d -> 0 <= PyFormat.div_half_even n d.
Proof.
  intros Hn Hd. unfold PyFormat.div_half_even.
  pose proof (Z.div_pos n d Hn Hd).
  destruct (2 * (n mod d) ?= d); [destruct (Z.even (n / d))| |]; lia.
Qed.

Lemma scaled_4_nonneg (m : positive) (e : Z) : 0 <= PyFormat.scaled_4 m e.
Proof.
  unfold PyFormat.scaled_4. destruct e as [|n|n].
  - lia.
  - pose proof (Z.pow_pos_nonneg 2 (Zpos n)). lia.
  - apply div_half_even_nonneg; lia.
Qed.

(** A finite float is printed with a sign, an integer part, a point and
    exactly four decimal digits. *)
Lemma format_4f_shape (x : PyFloat.float) :
  PyFloat.is_finite x = true ->
  exists (s : bool) (n : Z) (frac : string),
    PyFormat.format_4f x
    = (PyFormat.sign_str s ++ PyFormat.str_of_int n ++ "." ++ frac)%string /\
    0 <= n /\ String.length frac = 4%nat /\ all_digits frac = true.
Proof.
  destruct x as [s|s| |s m e]; simpl; try discriminate; intros _.
  - exists s, 0, "0000"%string. repeat split; reflexivity || lia.
  - exists s, (PyFormat.scaled_4 m e / 10000),
           (PyFormat.four_digits (PyFormat.scaled_4 m e mod 10000)).
    split; [reflexivity|]. split; [|apply four_digits_shape].
    apply Z.div_pos; [apply scaled_4_nonneg | lia].
Qed.



(** The lines of the report for three drums at spacing 1.001 and 120 bpm. *)
Example timing_lines_example :
  timing_lines f1_001 120 [kick; snare; crash]
  = Ok ["0,36,Kick,0.5000,2.0020" ++ newline;
        "1,38,Snare,2.5020,2.0020" ++ newline;
        "2,49,Crash Cymbal 1,4.5040,5.0050" ++ newline]%string.
Proof. vm_compute. reflexivity. Qed.

(** * Further properties *)

(** ** Stability of the sort *)

Section StableSortOrder.

Context {A K : Type}.
Variable key : A -> K.
Variable ltb : K -> K -> bool.

Let le (x y : A) : Prop := ltb (key y) (key x) = false.

Hypothesis ltb_asym : forall a b, ltb a b = true -> ltb b a = false.
Hypothesis le_trans :
  forall a b c, ltb b a = false -> ltb c b = false -> ltb c a = false.

Lemma ltb_irrefl (a : K) : ltb a a = false.
Proof.
  destruct (ltb a a) eqn:E; [|reflexivity].
  pose proof (ltb_asym _ _ E). congruence.
Qed.

Lemma insert_by_front (x : A) (l : list A) :
  Forall (le x) l -> insert_by key ltb x l = x :: l.
Proof.
  intros H. destruct l as [|y l]; [reflexivity|].
  simpl. inversion H as [|? ? Hy _]; subst. unfold le in Hy. now rewrite Hy.
Qed.

(** A list that is already in order is left as it is. *)
Lemma sort_by_sorted_id (l : list A) :
  StronglySorted le l -> sort_by key ltb l = l.
Proof.
  induction 1 as [|x l Hs IH Hx]; simpl; [reflexivity|].
  rewrite IH. now apply insert_by_front.
Qed.

Lemma filter_insert_by (p : A -> bool) (x : A) (l : list A) :
  StronglySorted le l ->
  filter p (insert_by key ltb x l)
  = if p x then insert_by key ltb x (filter p l) else filter p l.
Proof.
  induction 1 as [|y l Hs IH Hy]; simpl.
  - destruct (p x); reflexivity.
  - destruct (ltb (key y) (key x)) eqn:E; simpl.
    + rewrite IH. destruct (p y), (p x); simpl; rewrite ?E; reflexivity.
    + assert (Forall (le x) (filter p l)) as Hf.
      { apply Forall_forall. intros z Hz. apply filter_In in Hz. destruct Hz as [Hz _].
        rewrite Forall_forall in Hy. specialize (Hy z Hz). unfold le in *.
        eapply le_trans; eassumption. }
      destruct (p x) eqn:Px, (p y) eqn:Py; simpl; rewrite ?Px, ?Py, ?E; try reflexivity.
      now rewrite insert_by_front.
Qed.

(** Sorting commutes with filtering. *)
Lemma filter_sort_by (p : A -> bool) (l : list A) :
  filter p (sort_by key ltb l) = sort_by key ltb (filter p l).
Proof.
  induction l as [|x l IH]; simpl; [reflexivity|].
  rewrite filter_insert_by by (now apply sort_by_sorted).
  rewrite IH. destruct (p x); reflexivity.
Qed.

(** Elements whose keys do not order them keep their input order. *)
Lemma sort_by_stable (p : A -> bool) (l : list A) :
  (forall x y, p x = true -> p y = true -> ltb (key x) (key y) = false) ->
  filter p (sort_by key ltb l) = filter p l.
Proof.
  intros Hp. rewrite filter_sort_by. apply sort_by_sorted_id.
  induction l as [|x l IH]; simpl; [constructor|].
  destruct (p x) eqn:Px; [|exact IH].
  constructor; [exact IH|].
  apply Forall_forall. intros z Hz. apply filter_In in Hz. destruct Hz as [_ Pz].
  unfold le. now apply Hp.
Qed.

End StableSortOrder.

(** ** What the track contains *)

Lemma note_messages_app (a b : list track_msg) :
  note_messages (a ++ b) = note_messages a ++ note_messages b.
Proof. unfold note_messages. apply flat_map_app. Qed.

Lemma note_messages_map (l : list Message) : note_messages (map note_msg l) = l.
Proof. induction l as [|m l IH]; simpl; [|rewrite IH]; reflexivity. Qed.

Lemma layout_fields (velocity nl t : Z) (drums : list drum) (dts : list Z) :
  List.length drums = List.length dts ->
  map (fun x => (ev_type x, ev_note x, ev_vel x))
      (layout velocity nl t (entries_of drums dts))
  = triggers velocity drums.
Proof.
  unfold entries_of, triggers. revert t dts.
  induction drums as [|d drums IH]; intros t [|dt dts]; simpl; try discriminate;
    [reflexivity|].
  intros H. rewrite IH by lia. reflexivity.
Qed.

Lemma final_track_note_messages (ticks_per_beat tempo : Z) (events : list event) :
  note_messages ([set_tempo tempo; track_name "Logic Drum Export"]
                   ++ map note_msg (delta_messages (sort_by event_key key_ltb events) 0)
                   ++ [end_of_track ticks_per_beat])
  = delta_messages (sort_by event_key key_ltb events) 0.
Proof.
  rewrite !note_messages_app, note_messages_map. simpl. now rewrite app_nil_r.
Qed.

Lemma triggers_length (velocity : Z) (drums : list drum) :
  List.length (triggers velocity drums) = (2 * List.length drums)%nat.
Proof.
  unfold triggers. induction drums as [|d l IH]; simpl; [reflexivity|]. rewrite IH. lia.
Qed.

Lemma final_track_shape
      (spacing_multiplier : PyFloat.float) (velocity bpm ticks_per_beat tempo : Z)
      (drums : list drum) (track : list track_msg) :
  final_track spacing_multiplier velocity bpm ticks_per_beat tempo drums = Ok track ->
  track = [set_tempo tempo; track_name "Logic Drum Export"]
            ++ map note_msg (note_messages track)
            ++ [end_of_track ticks_per_beat] /\
  Permutation (map msg_fields (note_messages track)) (triggers velocity drums) /\
  List.length track = (2 * List.length drums + 3)%nat.
Proof.
  intros Ht. apply final_track_inv in Ht. destruct Ht as (events & Hb & ->).
  rewrite final_track_note_messages.
  apply build_events_inv in Hb. destruct Hb as (dts & nl & HF & _ & ->).
  simpl app at 1.
  assert (Permutation
            (map msg_fields
                 (delta_messages
                    (sort_by event_key key_ltb
                             (layout velocity nl (lead_in_ticks ticks_per_beat)
                                     (entries_of drums dts))) 0))
            (triggers velocity drums)) as Hp.
  { unfold msg_fields.
    rewrite (delta_messages_fields
               (sort_by event_key key_ltb
                        (layout velocity nl (lead_in_ticks ticks_per_beat)
                                (entries_of drums dts))) 0).
    rewrite <- (layout_fields velocity nl (lead_in_ticks ticks_per_beat) drums dts)
      by (eapply Forall2_length; eassumption).
    apply Permutation_map, Permutation_sym, sort_by_perm. }
  split; [reflexivity|]. split; [exact Hp|].
  apply Permutation_length in Hp. rewrite !length_map in Hp.
  simpl. rewrite length_app, length_map, Hp, triggers_length. simpl. lia.
Qed.

(** X1: the track is the tempo message, the track name, then exactly one
    [note_on] (with the caller's velocity) and one [note_off] (velocity 0)
    for every drum of the mapping, in some order, and the end-of-track
    marker one beat long: [2 * N + 3] messages, nothing lost and nothing
    invented. *)
Theorem track_holds_one_trigger_per_drum
        (spacing_multiplier : PyFloat.float) (velocity bpm ticks_per_beat tempo : Z)
        (drum_mapping : list drum) (track : list track_msg) :
  final_track spacing_multiplier velocity bpm ticks_per_beat tempo drum_mapping
  = Ok track ->
  track = [set_tempo tempo; track_name "Logic Drum Export"]
            ++ map note_msg (note_messages track)
            ++ [end_of_track ticks_per_beat] /\
  Permutation (map msg_fields (note_messages track)) (triggers velocity drum_mapping) /\
  List.length track = (2 * List.length drum_mapping + 3)%nat.
Proof. apply final_track_shape. Qed.

Lemma track_holds_one_trigger_per_drum_witness :
  exists track,
    final_track PyFloat.f1_0 127 120 480 500000 [kick; crash] = Ok track /\
    Permutation (map msg_fields (note_messages track))
                [(note_on, 36, 127); (note_off, 36, 0);
                 (note_on, 49, 127); (note_off, 49, 0)] /\
    List.length track = 7%nat.
Proof.
  destruct (final_track PyFloat.f1_0 127 120 480 500000 [kick; crash]) as [track|e] eqn:E;
    [|vm_compute in E; discriminate].
  exists track. split; [reflexivity|].
  destruct (track_holds_one_trigger_per_drum _ _ _ _ _ _ _ E) as (_ & Hp & Hl).
  split; [exact Hp | exact Hl].
Defined.

(** ** The order of the emitted events *)

Lemma event_le_same_type (x y : event) :
  ev_type x = ev_type y -> ev_tick x <= ev_tick y -> event_le x y.
Proof.
  unfold event_le, key_le, key_ltb, event_key; simpl. intros -> H.
  rewrite orb_false_iff, andb_false_iff, !Z.ltb_ge. split; [lia|].
  right. destruct (ev_type y); lia.
Qed.

Lemma layout_on_from (velocity nl t : Z) (entries : list (Z * Z)) :
  Forall (fun e => 0 <= snd e) entries ->
  Forall (fun x => t <= ev_tick x /\ ev_type x = note_on)
         (filter event_is_on (layout velocity nl t entries)).
Proof.
  intros HF. revert t.
  induction HF as [|[n dt] entries Hdt HF IH]; intros t; simpl; constructor.
  - simpl. split; [lia|reflexivity].
  - simpl in Hdt. eapply Forall_impl; [|apply IH]. simpl. intros x [Hx Hk]. split; [lia|exact Hk].
Qed.

Lemma layout_off_from (velocity nl t : Z) (entries : list (Z * Z)) :
  Forall (fun e => 0 <= snd e) entries ->
  Forall (fun x => t + nl <= ev_tick x /\ ev_type x = note_off)
         (filter event_is_off (layout velocity nl t entries)).
Proof.
  intros HF. revert t.
  induction HF as [|[n dt] entries Hdt HF IH]; intros t; simpl; constructor.
  - simpl. split; [lia|reflexivity].
  - simpl in Hdt. eapply Forall_impl; [|apply IH]. simpl. intros x [Hx Hk]. split; [lia|exact Hk].
Qed.

Lemma layout_on_sorted (velocity nl t : Z) (entries : list (Z * Z)) :
  Forall (fun e => 0 <= snd e) entries ->
  StronglySorted event_le (filter event_is_on (layout velocity nl t entries)).
Proof.
  intros HF. revert t.
  induction HF as [|[n dt] entries Hdt HF IH]; intros t; simpl; constructor.
  - apply IH.
  - simpl in Hdt.
    eapply Forall_impl; [|apply (layout_on_from velocity nl (t + dt)); exact HF].
    simpl. intros x [Hx Hk]. apply event_le_same_type; simpl; [now rewrite Hk|lia].
Qed.

Lemma layout_off_sorted (velocity nl t : Z) (entries : list (Z * Z)) :
  Forall (fun e => 0 <= snd e) entries ->
  StronglySorted event_le (filter event_is_off (layout velocity nl t entries)).
Proof.
  intros HF. revert t.
  induction HF as [|[n dt] entries Hdt HF IH]; intros t; simpl; constructor.
  - apply IH.
  - simpl in Hdt.
    eapply Forall_impl; [|apply (layout_off_from velocity nl (t + dt)); exact HF].
    simpl. intros x [Hx Hk]. apply event_le_same_type; simpl; [now rewrite Hk|lia].
Qed.

Lemma layout_on_notes (velocity nl t : Z) (drums : list drum) (dts : list Z) :
  List.length drums = List.length dts ->
  map ev_note (filter event_is_on (layout velocity nl t (entries_of drums dts)))
  = map drum_note drums /\
  map ev_note (filter event_is_off (layout velocity nl t (entries_of drums dts)))
  = map drum_note drums.
Proof.
  unfold entries_of. revert t dts.
  induction drums as [|d drums IH]; intros t [|dt dts]; simpl; try discriminate;
    [split; reflexivity|].
  intros H. destruct (IH (t + dt) dts ltac:(lia)) as [H1 H2].
  rewrite H1, H2. split; reflexivity.
Qed.

Lemma delta_messages_filter_notes (p : msg_type -> bool) (evs : list event) :
  forall last,
    map msg_note (filter (fun m => p (msg_kind m)) (delta_messages evs last))
    = map ev_note (filter (fun x => p (ev_type x)) evs).
Proof.
  induction evs as [|x evs IH]; intros last; simpl; [reflexivity|].
  destruct (p (ev_type x)); simpl; now rewrite IH.
Qed.

Lemma timing_loop_notes (spacing_multiplier : PyFloat.float) (drums : list drum) :
  forall i cur,
    map tr_note (timing_loop spacing_multiplier drums i cur) = map drum_note drums.
Proof. induction drums as [|d drums IH]; intros i cur; simpl; [|rewrite IH]; reflexivity. Qed.

(** X2: with positive durations, spacing, tempo and resolution the
    [note_on] messages are emitted in the order of the mapping, and so are
    the [note_off] messages; the records of the timing report are in the
    same order, so the [k]-th trigger of the track and the [k]-th record of
    the report are about the same note. *)
Theorem triggers_and_records_follow_the_mapping
        (spacing_multiplier : PyFloat.float) (velocity bpm ticks_per_beat tempo : Z)
        (drum_mapping : list drum) (track : list track_msg)
        (records : list timing_record) :
  PyFloat.gt_zero spacing_multiplier = true ->
  0 < bpm ->
  0 < ticks_per_beat ->
  Forall (fun d => PyFloat.gt_zero (base_duration d) = true) drum_mapping ->
  final_track spacing_multiplier velocity bpm ticks_per_beat tempo drum_mapping
  = Ok track ->
  timing_records spacing_multiplier bpm drum_mapping = Ok records ->
  map msg_note (filter message_is_on (note_messages track)) = map drum_note drum_mapping /\
  map msg_note (filter message_is_off (note_messages track)) = map drum_note drum_mapping /\
  map tr_note records = map drum_note drum_mapping /\
  map tr_index records = map Z.of_nat (seq 0 (List.length drum_mapping)).
Proof.
  intros Hs Hb Htp Hd Ht Hr.
  apply final_track_inv in Ht. destruct Ht as (events & Hev & ->).
  rewrite final_track_note_messages.
  destruct (build_events_inv _ _ _ _ _ _ _ _ Hev) as (dts & nl & HF & _ & ->).
  simpl app.
  pose proof (entries_nonneg _ _ _ _ _ Hs Hb Htp Hd HF) as Hnn.
  pose proof (Forall2_length HF) as Hlen.
  set (evs := layout velocity nl (lead_in_ticks ticks_per_beat) (entries_of drum_mapping dts)).
  assert (filter event_is_on (sort_by event_key key_ltb evs) = filter event_is_on evs) as Hon.
  { rewrite (filter_sort_by event_key key_ltb key_ltb_asym key_le_trans).
    apply (sort_by_sorted_id event_key key_ltb). now apply layout_on_sorted. }
  assert (filter event_is_off (sort_by event_key key_ltb evs) = filter event_is_off evs) as Hoff.
  { rewrite (filter_sort_by event_key key_ltb key_ltb_asym key_le_trans).
    apply (sort_by_sorted_id event_key key_ltb). now apply layout_off_sorted. }
  destruct (layout_on_notes velocity nl (lead_in_ticks ticks_per_beat) _ _ Hlen) as [N1 N2].
  split; [|split; [|split]].
  - unfold message_is_on.
    rewrite (delta_messages_filter_notes is_note_on). fold event_is_on.
    change (fun x => is_note_on (ev_type x)) with event_is_on. rewrite Hon. exact N1.
  - unfold message_is_off.
    rewrite (delta_messages_filter_notes (fun k => negb (is_note_on k))).
    change (fun x => negb (is_note_on (ev_type x))) with event_is_off. rewrite Hoff. exact N2.
  - unfold timing_records in Hr.
    destruct (PyFloat.int_truediv 60 bpm); simpl in Hr; [|discriminate].
    inversion Hr. apply timing_loop_notes.
  - unfold timing_records in Hr.
    destruct (PyFloat.int_truediv 60 bpm) as [q|]; simpl in Hr; [|discriminate].
    inversion Hr.
    assert (forall l i cur,
               map tr_index (timing_loop spacing_multiplier l i cur)
               = map (fun k => i + Z.of_nat k) (seq 0 (List.length l))) as Hi.
    { induction l as [|d l IH]; intros i cur; simpl; [reflexivity|].
      rewrite IH, Z.add_0_r. f_equal. rewrite <- seq_shift, map_map.
      apply map_ext. intros k. lia. }
    rewrite Hi. apply map_ext. intros k. lia.
Qed.

Lemma triggers_and_records_follow_the_mapping_witness :
  exists track records,
    final_track f1_001 127 120 480 500000 [kick; snare; crash] = Ok track /\
    timing_records f1_001 120 [kick; snare; crash] = Ok records /\
    map msg_note (filter message_is_on (note_messages track)) = [36; 38; 49] /\
    map msg_note (filter message_is_off (note_messages track)) = [36; 38; 49] /\
    map tr_note records = [36; 38; 49] /\
    map tr_index records = [0; 1; 2].
Proof.
  destruct (final_track f1_001 127 120 480 500000 [kick; snare; crash])
    as [track|e] eqn:Et; [|vm_compute in Et; discriminate].
  destruct (timing_records f1_001 120 [kick; snare; crash])
    as [records|e] eqn:Er; [|vm_compute in Er; discriminate].
  exists track, records. split; [reflexivity|]. split; [reflexivity|].
  assert (PyFloat.gt_zero f1_001 = true) as Hs by reflexivity.
  assert (0 < 120) as Hb by lia.
  assert (0 < 480) as Ht by lia.
  assert (Forall (fun d => PyFloat.gt_zero (base_duration d) = true) [kick; snare; crash])
    as Hd by (repeat constructor).
  exact (triggers_and_records_follow_the_mapping
           f1_001 127 120 480 500000 [kick; snare; crash] track records
           Hs Hb Ht Hd Et Er).
Defined.

(** X3: the sort is stable: events of the same type on the same tick are
    emitted in the order of the mapping, whatever the parameters are (so
    triggers whose spacing collapses to zero ticks still fire in mapping
    order); and sorting raises nothing of its own. *)
Theorem equal_events_keep_entry_order
        (spacing_multiplier : PyFloat.float) (velocity bpm ticks_per_beat : Z)
        (drum_mapping : list drum) :
  match build_events spacing_multiplier velocity bpm ticks_per_beat drum_mapping
                     (lead_in_ticks ticks_per_beat) [],
        sorted_events spacing_multiplier velocity bpm ticks_per_beat drum_mapping with
  | Ok events, Ok sorted =>
      forall t k, filter (event_at t k) sorted = filter (event_at t k) events
  | Raise e, Raise e' => e = e'
  | _, _ => False
  end.
Proof.
  unfold sorted_events.
  destruct (build_events _ _ _ _ _ _ _) as [events|e]; simpl; [|reflexivity].
  intros t k. apply (sort_by_stable event_key key_ltb key_ltb_asym key_le_trans).
  intros x y Hx Hy. unfold event_at in Hx, Hy.
  apply andb_true_iff in Hx, Hy. destruct Hx as [Hx Kx], Hy as [Hy Ky].
  apply Z.eqb_eq in Hx, Hy. apply Bool.eqb_prop in Kx, Ky.
  unfold key_ltb, event_key; simpl. rewrite Hx, Hy, Z.ltb_irrefl, Z.eqb_refl. simpl.
  destruct (ev_type x), (ev_type y), k; simpl in *; try discriminate; reflexivity.
Qed.

(** ** When sorting changes nothing, and when it does *)

Lemma swap_pairs_Forall {A : Type} (P : A -> Prop) (l : list A) :
  Forall P l -> Forall P (swap_pairs l).
Proof.
  revert l. fix IH 1. intros [|a [|b l]] H; simpl; try exact H.
  inversion H as [|? ? Ha H']; subst. inversion H' as [|? ? Hb H'']; subst.
  constructor; [exact Hb|]. constructor; [exact Ha|]. apply IH. exact H''.
Qed.

Lemma event_le_lt (x y : event) : ev_tick x < ev_tick y -> event_le x y.
Proof. intros H. apply event_le_in_order. left. exact H. Qed.

Lemma layout_sorted (velocity nl t : Z) (entries : list (Z * Z)) :
  0 < nl -> Forall (fun e => nl <= snd e) entries ->
  StronglySorted event_le (layout velocity nl t entries).
Proof.
  intros Hnl HF. revert t.
  induction HF as [|[n dt] entries Hdt HF IH]; intros t; simpl; [constructor|].
  simpl in Hdt.
  assert (Forall (fun x => t + dt <= ev_tick x) (layout velocity nl (t + dt) entries)) as Hfrom.
  { apply layout_ticks_from; [lia|]. eapply Forall_impl; [|exact HF]. simpl. intros; lia. }
  constructor; [constructor; [apply IH|]|].
  - eapply Forall_impl; [|exact Hfrom]. intros x Hx. cbv beta in Hx.
    apply event_le_in_order. unfold in_order. simpl.
    destruct (Z.eq_dec (t + nl) (ev_tick x)); [right|left; lia].
    split; [assumption|discriminate].
  - constructor; [apply event_le_lt; simpl; lia|].
    eapply Forall_impl; [|exact Hfrom]. intros x Hx. cbv beta in Hx. apply event_le_lt. simpl. lia.
Qed.

Lemma layout_deltas_spec (velocity nl : Z) (entries : list (Z * Z)) :
  forall t last,
    map msg_time (delta_messages (layout velocity nl t entries) last)
    = layout_deltas nl (t - last) entries.
Proof.
  induction entries as [|[n dt] entries IH]; intros t last; simpl; [reflexivity|].
  rewrite IH. do 3 f_equal; lia.
Qed.

Lemma layout_zero_sorted (velocity t : Z) (entries : list (Z * Z)) :
  Forall (fun e => 0 < snd e) entries ->
  sort_by event_key key_ltb (layout velocity 0 t entries)
  = swap_pairs (layout velocity 0 t entries).
Proof.
  intros HF. revert t.
  induction HF as [|[n dt] entries Hdt HF IH]; intros t; [reflexivity|].
  simpl in Hdt. cbn [layout sort_by swap_pairs]. rewrite IH.
  assert (Forall (fun x => t + dt <= ev_tick x)
                 (swap_pairs (layout velocity 0 (t + dt) entries))) as Hfrom.
  { apply swap_pairs_Forall. apply layout_ticks_from; [lia|].
    eapply Forall_impl; [|exact HF]. simpl. intros; lia. }
  set (S := swap_pairs (layout velocity 0 (t + dt) entries)) in *.
  rewrite Z.add_0_r.
  assert (insert_by event_key key_ltb (mk_event t note_off n 0) S
          = mk_event t note_off n 0 :: S) as ->.
  { apply insert_by_front. eapply Forall_impl; [|exact Hfrom]. intros x Hx.
    cbv beta in Hx. change (event_le (mk_event t note_off n 0) x).
    apply event_le_lt. simpl. lia. }
  cbn [insert_by].
  replace (key_ltb (event_key (mk_event t note_off n 0))
                   (event_key (mk_event t note_on n velocity))) with true
    by (unfold key_ltb, event_key; simpl; now rewrite Z.ltb_irrefl, Z.eqb_refl).
  rewrite (insert_by_front event_key key_ltb); [reflexivity|].
  eapply Forall_impl; [|exact Hfrom]. intros x Hx. cbv beta in Hx.
  change (event_le (mk_event t note_on n velocity) x). apply event_le_lt. simpl. lia.
Qed.

Section EmittedOrder.

Variable spacing_multiplier : PyFloat.float.
Variables velocity bpm ticks_per_beat tempo : Z.
Variable drum_mapping : list drum.
Variable dts : list Z.
Variable nl : Z.

Hypothesis note_length : note_length_ticks bpm ticks_per_beat = Ok nl.
Hypothesis durations :
  Forall2 (fun d dt => duration_ticks spacing_multiplier bpm ticks_per_beat
                                      (base_duration d) = Ok dt) drum_mapping dts.

Let entries := entries_of drum_mapping dts.
Let built := layout velocity nl (lead_in_ticks ticks_per_beat) entries.

Lemma entries_snd_Forall (P : Z -> Prop) :
  Forall P dts -> Forall (fun e => P (snd e)) entries.
Proof.
  intros H. apply Forall_map with (f := snd) (P := P).
  unfold entries. rewrite entries_of_snd; [exact H|].
  eapply Forall2_length; eassumption.
Qed.

(** X4: when every entry's spacing is at least the note length and the
    note length is at least one tick, sorting changes nothing: the track
    is [note_on], [note_off] of the first drum, then of the second, and so
    on, with delta times one beat, the note length, the rest of the first
    spacing, the note length, and so on. *)
Theorem spaced_triggers_are_emitted_as_built :
  0 < nl ->
  Forall (fun dt => nl <= dt) dts ->
  sorted_events spacing_multiplier velocity bpm ticks_per_beat drum_mapping = Ok built /\
  final_track spacing_multiplier velocity bpm ticks_per_beat tempo drum_mapping
  = Ok ([set_tempo tempo; track_name "Logic Drum Export"]
          ++ map note_msg (delta_messages built 0)
          ++ [end_of_track ticks_per_beat]) /\
  map msg_fields (delta_messages built 0) = triggers velocity drum_mapping /\
  map msg_time (delta_messages built 0) = layout_deltas nl ticks_per_beat entries.
Proof.
  intros Hnl Hle.
  assert (sorted_events spacing_multiplier velocity bpm ticks_per_beat drum_mapping
          = Ok built) as Hs.
  { unfold sorted_events.
    rewrite (build_events_ok _ velocity _ _ _ _ _ durations note_length). simpl.
    f_equal. apply (sort_by_sorted_id event_key key_ltb).
    apply layout_sorted; [exact Hnl|]. now apply entries_snd_Forall. }
  split; [exact Hs|]. split; [unfold final_track; rewrite Hs; reflexivity|].
  split.
  - unfold msg_fields.
    rewrite (delta_messages_fields built 0). unfold built, entries.
    apply layout_fields. eapply Forall2_length; eassumption.
  - unfold built. rewrite layout_deltas_spec. f_equal. unfold lead_in_ticks. lia.
Qed.


End EmittedOrder.

Lemma spaced_triggers_are_emitted_as_built_witness :
  sorted_events PyFloat.f1_0 127 120 480 [kick; crash]
  = Ok (layout 127 96 (lead_in_ticks 480) (entries_of [kick; crash] [1920; 4800])) /\
  map msg_time
      (delta_messages
         (layout 127 96 (lead_in_ticks 480) (entries_of [kick; crash] [1920; 4800])) 0)
  = layout_deltas 96 480 (entries_of [kick; crash] [1920; 4800]).
Proof.
  assert (note_length_ticks 120 480 = Ok 96) as Hn by (vm_compute; reflexivity).
  assert (Forall2 (fun d dt => duration_ticks PyFloat.f1_0 120 480 (base_duration d) = Ok dt)
                  [kick; crash] [1920; 4800]) as Hd
      by (repeat constructor; vm_compute; reflexivity).
  assert (0 < 96) as Hpos by lia.
  assert (Forall (fun dt => 96 <= dt) [1920; 4800]) as Hle by (repeat constructor; lia).
  destruct (spaced_triggers_are_emitted_as_built
              PyFloat.f1_0 127 120 480 500000 [kick; crash] [1920; 4800] 96
              Hn Hd Hpos Hle) as (Hs & _ & _ & Ht).
  split; [exact Hs | exact Ht].
Defined.


(** ** The three passes *)

Section PassesAgree.

Variable spacing_multiplier : PyFloat.float.
Variables velocity bpm ticks_per_beat : Z.

(** Two computations end the same way: both return, or both raise the
    same exception. *)
Let same_outcome {A B : Type} (r : result A) (r' : result B) : Prop :=
  match r, r' with
  | Ok _, Ok _ => True
  | Raise e, Raise e' => e = e'
  | _, _ => False
  end.

Lemma first_pass_outcome (drums : list drum) :
  forall i track cur t acc,
    same_outcome
      (first_pass spacing_multiplier velocity bpm ticks_per_beat drums i track cur)
      (build_events spacing_multiplier velocity bpm ticks_per_beat drums t acc).
Proof.
  induction drums as [|d drums IH]; intros i track cur t acc; simpl; [exact I|].
  destruct (duration_ticks _ _ _ _) as [dt|e]; simpl; [|reflexivity].
  destruct (note_length_ticks _ _) as [nl|e]; simpl; [|reflexivity].
  apply IH.
Qed.

Lemma second_pass_outcome (drums : list drum) :
  forall i n track t acc,
    same_outcome
      (second_pass spacing_multiplier velocity bpm ticks_per_beat drums i n track)
      (build_events spacing_multiplier velocity bpm ticks_per_beat drums t acc).
Proof.
  induction drums as [|d drums IH]; intros i n track t acc; simpl; [exact I|].
  destruct (duration_ticks _ _ _ _) as [dt|e]; simpl; [|reflexivity].
  destruct (note_length_ticks _ _) as [nl|e]; simpl; [|reflexivity].
  apply IH.
Qed.

Lemma generate_track_final (tempo : Z) (drums : list drum) :
  generate_track spacing_multiplier velocity bpm ticks_per_beat tempo drums
  = final_track spacing_multiplier velocity bpm ticks_per_beat tempo drums.
Proof.
  unfold generate_track.
  pose proof (first_pass_outcome drums 0 (track_header tempo) (S754_zero false)
                                 (lead_in_ticks ticks_per_beat) []) as H1.
  pose proof (second_pass_outcome drums 0 (Z.of_nat (List.length drums))
                                  (track_header tempo)
                                  (lead_in_ticks ticks_per_beat) []) as H2.
  unfold final_track, sorted_events.
  destruct (build_events _ _ _ _ _ _ _) as [events|e];
    destruct (first_pass _ _ _ _ _ _ _ _) as [r1|e1];
    destruct (second_pass _ _ _ _ _ _ _ _) as [r2|e2];
    simpl in *; try contradiction; try reflexivity; congruence.
Qed.

(** X6: the first two passes over the mapping are dead code: the track
    that is saved, and the exception when there is one, are those of the
    last pass alone, for every mapping and every parameter.  (The checks
    the MIDI library makes of a message's note and velocity, which are
    the same in every pass, are outside the model.) *)
Theorem discarded_passes_change_nothing (tempo : Z) (drum_mapping : list drum) :
  generate_track spacing_multiplier velocity bpm ticks_per_beat tempo drum_mapping
  = final_track spacing_multiplier velocity bpm ticks_per_beat tempo drum_mapping.
Proof. apply generate_track_final. Qed.

End PassesAgree.

(** ** Loading: failures, and the whole run *)

Lemma of_str_raises (s : string) (e : exn) : PyInt.of_str s = Raise e -> e = ValueError.
Proof.
  unfold PyInt.of_str. destruct (PyInt.parse_signed _); [discriminate|].
  intros H; inversion H; reflexivity.
Qed.

Lemma load_object_raises (entries : list (string * string)) (e : exn) :
  forall acc,
    load_object entries acc = Raise e ->
    e = ValueError /\
    Exists (fun kv => PyInt.of_str (fst kv) = Raise ValueError) entries.
Proof.
  induction entries as [|[k name] entries IH]; intros acc; simpl; [discriminate|].
  destruct (PyInt.of_str k) as [n|e'] eqn:E; simpl.
  - intros H. destruct (IH _ H) as [He Hx]. split; [exact He|]. now apply Exists_cons_tl.
  - intros H. inversion H; subst. pose proof (of_str_raises _ _ E) as ->.
    split; [reflexivity|]. apply Exists_cons_hd. exact E.
Qed.

Lemma load_object_inv (entries : list (string * string)) :
  forall acc drums,
    load_object entries acc = Ok drums ->
    exists notes,
      Forall2 (fun kv n => PyInt.of_str (fst kv) = Ok n) entries notes /\
      drums = acc ++ converted notes entries.
Proof.
  induction entries as [|[k name] entries IH]; intros acc drums; simpl.
  - intros H; inversion H. exists []. split; [constructor|]. now rewrite app_nil_r.
  - destruct (PyInt.of_str k) as [n|e'] eqn:E; simpl; [|discriminate].
    intros H. destruct (IH _ _ H) as (notes & HF & ->).
    exists (n :: notes). split; [now constructor|].
    rewrite <- app_assoc. reflexivity.
Qed.

Lemma converted_length (notes : list Z) (entries : list (string * string)) :
  List.length notes = List.length entries ->
  List.length (converted notes entries) = List.length entries.
Proof.
  intros H. unfold converted. rewrite length_map, length_combine. lia.
Qed.


Lemma load_drum_mapping_durations (m : mapping) (drums : list drum) :
  load_drum_mapping m = Ok drums ->
  Forall (fun d => base_duration d = get_duration_for_sound (drum_name d)) drums.
Proof.
  destruct m as [items|entries]; simpl.
  - intros H; inversion H. rewrite load_array_map.
    apply Forall_map, Forall_forall. reflexivity.
  - destruct (load_object entries []) as [l|e] eqn:E; simpl; [|discriminate].
    intros H; inversion H.
    destruct (load_object_inv _ _ _ E) as (notes & _ & ->).
    apply sort_by_Forall. simpl. apply converted_durations.
Qed.

Lemma get_duration_for_sound_positive (name : string) :
  PyFloat.gt_zero (get_duration_for_sound name) = true.
Proof.
  unfold get_duration_for_sound.
  repeat match goal with
         | |- context [if ?c then _ else _] => destruct c
         end; reflexivity.
Qed.

Lemma sorted_deltas_nonneg
      (spacing_multiplier : PyFloat.float) (velocity bpm ticks_per_beat : Z)
      (drums : list drum) (events : list event) :
  PyFloat.gt_zero spacing_multiplier = true ->
  0 < bpm ->
  0 < ticks_per_beat ->
  Forall (fun d => PyFloat.gt_zero (base_duration d) = true) drums ->
  build_events spacing_multiplier velocity bpm ticks_per_beat drums
               (lead_in_ticks ticks_per_beat) [] = Ok events ->
  Forall (fun m => 0 <= msg_time m)
         (delta_messages (sort_by event_key key_ltb events) 0).
Proof.
  intros Hs Hb Ht Hd Hev.
  apply delta_messages_nonneg.
  - apply (sort_by_sorted event_key key_ltb key_ltb_asym key_le_trans).
  - apply (sort_by_Forall event_key key_ltb).
    destruct (build_events_inv _ _ _ _ _ _ _ _ Hev) as (dts & nl & HF & Hnl & ->).
    simpl. destruct Hnl as [-> | Hnl]; [inversion HF; constructor|].
    eapply Forall_impl;
      [|apply (layout_ticks_from velocity nl (lead_in_ticks ticks_per_beat))].
    + unfold lead_in_ticks. intros x Hx. cbv beta in Hx. lia.
    + now apply note_length_ticks_nonneg in Hnl.
    + now apply (entries_nonneg spacing_multiplier bpm ticks_per_beat).
Qed.

Lemma triggers_in_range (velocity : Z) (drums : list drum) :
  0 <= velocity <= 127 ->
  Forall (fun d => 0 <= drum_note d <= 127) drums ->
  Forall (fun f => 0 <= snd (fst f) <= 127 /\ 0 <= snd f <= 127) (triggers velocity drums).
Proof.
  intros Hv HF. unfold triggers.
  induction HF as [|d drums Hd HF IH]; simpl; [constructor|].
  constructor; [simpl; lia|]. constructor; [simpl; lia|]. exact IH.
Qed.



(** ** The precision of the report *)

Lemma div_half_even_nearest (n d : Z) :
  0 <= n -> 0 < d ->
  - d <= 2 * (PyFormat.div_half_even n d * d - n) <= d.
Proof.
  intros Hn Hd. unfold PyFormat.div_half_even.
  pose proof (Z.div_mod n d ltac:(lia)) as Hdm.
  pose proof (Z.mod_pos_bound n d Hd) as Hmod.
  set (q := n / d) in *. set (r := n mod d) in *. clearbody q r.
  destruct (2 * r ?= d) eqn:E.
  - rewrite Z.compare_eq_iff in E. destruct (Z.even q); nia.
  - rewrite Z.compare_lt_iff in E. nia.
  - rewrite Z.compare_gt_iff in E. nia.
Qed.

Lemma scaled_4_nearest (s : bool) (m : positive) (e : Z) :
  (Qabs (inject_Z (PyFormat.scaled_4 m e)
         - Qabs (PyFloat.to_Q (S754_finite s m e)) * 10000) <= 1 # 2)%Q.
Proof.
  apply Qabs_Qle_condition.
  unfold PyFormat.scaled_4, PyFloat.to_Q. destruct e as [|k|k].
  - assert (Qabs (inject_Z (cond_Zopp s (Zpos m))) == inject_Z (Zpos m))%Q as ->
        by (destruct s; reflexivity).
    rewrite Z.pow_0_r, Z.mul_1_r.
    replace (inject_Z (Zpos m * 10000)) with (inject_Z (Zpos m) * 10000)%Q
      by (unfold Qmult, inject_Z; simpl; f_equal; lia).
    split; lra.
  - assert (Qabs (inject_Z (cond_Zopp s (Zpos m * 2 ^ Zpos k)))
            == inject_Z (Zpos m * 2 ^ Zpos k))%Q as ->.
    { pose proof (Z.pow_pos_nonneg 2 (Zpos k) ltac:(lia) ltac:(lia)).
      assert (0 <= inject_Z (Zpos m * 2 ^ Zpos k))%Q
        by (change 0%Q with (inject_Z 0); rewrite <- Zle_Qle; lia).
      destruct s; simpl cond_Zopp.
      - rewrite inject_Z_opp, Qabs_opp. now apply Qabs_pos.
      - now apply Qabs_pos. }
    replace (inject_Z (Zpos m * 2 ^ Zpos k * 10000))
      with (inject_Z (Zpos m * 2 ^ Zpos k) * 10000)%Q
      by (unfold Qmult, inject_Z; simpl; f_equal; lia).
    split; lra.
  - pose proof (div_half_even_nearest (Zpos m * 10000) (Zpos (2 ^ k))
                                      ltac:(lia) ltac:(lia)) as H.
    set (n := PyFormat.div_half_even (Zpos m * 10000) (Zpos (2 ^ k))) in *.
    assert (Qabs (cond_Zopp s (Zpos m) # 2 ^ k) == Zpos m # 2 ^ k)%Q as ->
        by (destruct s; reflexivity).
    unfold Qle, Qminus, Qplus, Qmult, Qopp, inject_Z; simpl Qnum; simpl Qden.
    rewrite ?Pos.mul_1_r, ?Pos.mul_1_l, ?Z.mul_1_r. split; lia.
Qed.

(** X9: a finite time is written to the timing file as a sign, the integer
    part and four decimals of the integer number [n] of ten-thousandths
    nearest to its magnitude: the written value is within 0.00005 of the
    float. *)
Theorem report_times_are_correctly_rounded (x : PyFloat.float) :
  PyFloat.is_finite x = true ->
  exists (s : bool) (n : Z),
    PyFormat.format_4f x
    = (PyFormat.sign_str s ++ PyFormat.str_of_int (n / 10000) ++ "."
         ++ PyFormat.four_digits (n mod 10000))%string /\
    0 <= n /\
    (Qabs (inject_Z n / 10000 - Qabs (PyFloat.to_Q x)) <= 1 # 20000)%Q.
Proof.
  destruct x as [s|s| |s m e]; intros Hf; try discriminate Hf; clear Hf.
  - exists s, 0. split; [reflexivity|]. split; [lia|]. vm_compute. discriminate.
  - exists s, (PyFormat.scaled_4 m e). split; [reflexivity|].
    split; [apply scaled_4_nonneg|].
    pose proof (scaled_4_nearest s m e) as H.
    apply Qabs_Qle_condition in H. apply Qabs_Qle_condition.
    set (v := Qabs (PyFloat.to_Q (S754_finite s m e))) in *.
    set (n := inject_Z (PyFormat.scaled_4 m e)) in *.
    destruct H as [H1 H2].
    change (n / 10000)%Q with (n * (1 # 10000))%Q. split; lra.
Qed.

Lemma report_times_are_correctly_rounded_witness :
  PyFloat.is_finite f1_001 = true /\
  exists (s : bool) (n : Z),
    PyFormat.format_4f f1_001
    = (PyFormat.sign_str s ++ PyFormat.str_of_int (n / 10000) ++ "."
         ++ PyFormat.four_digits (n mod 10000))%string /\
    0 <= n /\
    (Qabs (inject_Z n / 10000 - Qabs (PyFloat.to_Q f1_001)) <= 1 # 20000)%Q.
Proof.
  split; [reflexivity|].
  apply (report_times_are_correctly_rounded f1_001). reflexivity.
Defined.

(** ** Note numbers written in decimal are read back *)

Ltac read_digit :=
  cbn [NilEmpty.string_of_uint list_ascii_of_string PyInt.parse_digits];
  match goal with
  | |- context [Ascii.eqb ?c "_"] =>
      let v := eval vm_compute in (Ascii.eqb c "_") in
      change (Ascii.eqb c "_") with v
  end;
  match goal with
  | |- context [PyInt.digit_val ?c] =>
      let v := eval vm_compute in (PyInt.digit_val c) in
      change (PyInt.digit_val c) with v
  end;
  cbv iota.

Lemma parse_digits_acc (d : Decimal.uint) :
  forall acc : positive,
    PyInt.parse_digits (list_ascii_of_string (NilEmpty.string_of_uint d)) (Z.pos acc) true
    = Some (Z.pos (Pos.of_uint_acc d acc)).
Proof.
  induction d; intros acc; [reflexivity | ..];
    read_digit; cbn [Pos.of_uint_acc]; rewrite <- IHd; do 2 f_equal; lia.
Qed.

Lemma parse_digits_uint (d : Decimal.uint) :
  forall b : bool,
    d <> Decimal.Nil \/ b = true ->
    PyInt.parse_digits (list_ascii_of_string (NilEmpty.string_of_uint d)) 0 b
    = Some (Z.of_N (Pos.of_uint d)).
Proof.
  induction d; intros b Hb;
    [ destruct Hb as [Hb | ->]; [now contradiction Hb | reflexivity]
    | read_digit; cbn [Pos.of_uint]; apply IHd; now right
    | read_digit; cbn [Pos.of_uint Z.of_N]; rewrite <- parse_digits_acc; reflexivity .. ].
Qed.

Lemma string_of_uint_chars (d : Decimal.uint) :
  Forall (fun c => PyInt.is_space c = false /\ Ascii.eqb c "-" = false /\
                   Ascii.eqb c "+" = false)
         (list_ascii_of_string (NilEmpty.string_of_uint d)).
Proof.
  induction d; cbn [NilEmpty.string_of_uint list_ascii_of_string]; constructor;
    try exact IHd; repeat split; reflexivity.
Qed.

Lemma lstrip_id (l : list ascii) :
  Forall (fun c => PyInt.is_space c = false) l -> PyInt.lstrip l = l.
Proof.
  intros H. destruct H as [|c l Hc _]; [reflexivity|].
  cbn [PyInt.lstrip]. now rewrite Hc.
Qed.

Lemma strip_id (l : list ascii) :
  Forall (fun c => PyInt.is_space c = false) l -> PyInt.strip l = l.
Proof.
  intros H. unfold PyInt.strip. rewrite (lstrip_id l H).
  rewrite lstrip_id by now apply Forall_rev.
  apply rev_involutive.
Qed.

Lemma of_str_pos (p : positive) :
  PyInt.of_str (NilEmpty.string_of_uint (Pos.to_uint p)) = Ok (Z.pos p).
Proof.
  unfold PyInt.of_str.
  pose proof (string_of_uint_chars (Pos.to_uint p)) as Hc.
  rewrite strip_id by (eapply Forall_impl; [|exact Hc]; cbv beta; tauto).
  pose proof (parse_digits_uint (Pos.to_uint p) false
                (or_introl (DecimalPos.Unsigned.to_uint_nonnil p))) as Hp.
  rewrite DecimalPos.Unsigned.of_to in Hp.
  destruct (list_ascii_of_string (NilEmpty.string_of_uint (Pos.to_uint p)))
    as [|c l] eqn:E; [discriminate Hp|].
  inversion Hc as [|? ? (_ & Hm & Hpl) _]; subst.
  unfold PyInt.parse_signed. rewrite Hm, Hpl, Hp. reflexivity.
Qed.

Lemma of_str_str_of_int (z : Z) : PyInt.of_str (PyFormat.str_of_int z) = Ok z.
Proof.
  unfold PyFormat.str_of_int.
  destruct z as [|p|p]; [reflexivity| |].
  - unfold Z.to_int, NilZero.string_of_int, NilZero.string_of_uint.
    pose proof (DecimalPos.Unsigned.to_uint_nonnil p) as Hn.
    destruct (Pos.to_uint p) eqn:E; try contradiction; rewrite <- E; apply of_str_pos.
  - unfold Z.to_int, NilZero.string_of_int, NilZero.string_of_uint.
    pose proof (DecimalPos.Unsigned.to_uint_nonnil p) as Hn.
    pose proof (string_of_uint_chars (Pos.to_uint p)) as Hc.
    pose proof (parse_digits_uint (Pos.to_uint p) false (or_introl Hn)) as Hp.
    rewrite DecimalPos.Unsigned.of_to in Hp.
    assert (NilEmpty.string_of_uint (Pos.to_uint p)
            = match Pos.to_uint p with
              | Decimal.Nil => "0"%string
              | _ => NilEmpty.string_of_uint (Pos.to_uint p)
              end) as <- by (destruct (Pos.to_uint p); try reflexivity; contradiction).
    unfold PyInt.of_str. cbn [list_ascii_of_string].
    rewrite strip_id.
    + unfold PyInt.parse_signed. cbv [Ascii.eqb Bool.eqb]. rewrite Hp. reflexivity.
    + constructor; [reflexivity|].
      eapply Forall_impl; [|exact Hc]; cbv beta; tauto.
Qed.

Lemma load_object_form (l : list (Z * string)) :
  forall acc,
    load_object (map (fun p => (PyFormat.str_of_int (fst p), snd p)) l) acc
    = Ok (acc ++ map (fun p => drum_of (fst p) (snd p)) l).
Proof.
  induction l as [|[n name] l IH]; intros acc; simpl.
  - now rewrite app_nil_r.
  - rewrite of_str_str_of_int. simpl. rewrite IH, <- app_assoc. reflexivity.
Qed.


(** ** The length of the track *)

Lemma delta_messages_sum (evs : list event) :
  forall last_tick,
    Zsum (map msg_time (delta_messages evs last_tick)) = end_tick evs last_tick - last_tick.
Proof.
  unfold end_tick.
  induction evs as [|x evs IH]; intros last_tick.
  - simpl. lia.
  - cbn [delta_messages map msg_time Zsum fold_right fold_left].
    fold (Zsum (map msg_time (delta_messages evs (ev_tick x)))).
    rewrite IH. lia.
Qed.

Lemma end_tick_In (evs : list event) :
  forall last_tick, In (end_tick evs last_tick) (last_tick :: map ev_tick evs).
Proof.
  unfold end_tick.
  induction evs as [|x evs IH]; intros last_tick; cbn [fold_left map].
  - now left.
  - right. apply IH.
Qed.

Lemma end_tick_max (evs : list event) :
  StronglySorted event_le evs ->
  forall last_tick, Forall (fun x => ev_tick x <= end_tick evs last_tick) evs.
Proof.
  induction 1 as [|x evs Hs IH Hx]; intros last_tick; [constructor|].
  change (end_tick (x :: evs) last_tick) with (end_tick evs (ev_tick x)).
  constructor; [|apply IH].
  destruct (end_tick_In evs (ev_tick x)) as [<- | Hin]; [lia|].
  apply in_map_iff in Hin. destruct Hin as (y & <- & Hy).
  rewrite Forall_forall in Hx. apply event_le_tick. now apply Hx.
Qed.

Lemma Zsum_app (l1 l2 : list Z) : Zsum (l1 ++ l2) = Zsum l1 + Zsum l2.
Proof.
  unfold Zsum. induction l1 as [|a l1 IH]; simpl; [reflexivity|]. rewrite IH. lia.
Qed.

Lemma Zsum_removelast_nonneg (l : list Z) :
  Forall (fun z => 0 <= z) l -> 0 <= Zsum (removelast l).
Proof.
  induction 1 as [|a l Ha HF IH]; [simpl; lia|].
  destruct l as [|b l]; [simpl; lia|].
  change (removelast (a :: b :: l)) with (a :: removelast (b :: l)).
  cbn [Zsum fold_right]. fold (Zsum (removelast (b :: l))). lia.
Qed.

(** The latest tick of a layout is the last note's release. *)
Lemma layout_latest (velocity nl : Z) (entries : list (Z * Z)) :
  0 <= nl ->
  Forall (fun e => 0 <= snd e) entries ->
  entries <> [] ->
  forall t,
    let T := t + Zsum (removelast (map snd entries)) + nl in
    Forall (fun x => ev_tick x <= T) (layout velocity nl t entries) /\
    In T (map ev_tick (layout velocity nl t entries)).
Proof.
  intros Hnl HF. induction HF as [|[n dt] entries Hdt HF IH]; intros Hne t;
    [now contradiction Hne|].
  simpl in Hdt. destruct entries as [|e2 rest].
  - cbn. split; [repeat constructor; simpl; lia|]. right; left. lia.
  - assert (e2 :: rest <> []) as Hne2 by discriminate.
    specialize (IH Hne2 (t + dt)). cbv zeta in IH. destruct IH as [Hle Hin].
    set (entries := e2 :: rest) in *.
    assert (removelast (map snd ((n, dt) :: entries))
            = dt :: removelast (map snd entries)) as ->
        by (unfold entries; reflexivity).
    cbv zeta. cbn [Zsum fold_right]. fold (Zsum (removelast (map snd entries))).
    set (S := Zsum (removelast (map snd entries))) in *.
    replace (t + (dt + S) + nl) with (t + dt + S + nl) by lia.
    assert (0 <= S) as Hge.
    { apply Zsum_removelast_nonneg. rewrite Forall_map. exact HF. }
    clearbody S. cbn [layout map]. split.
    + constructor; [simpl; lia|]. constructor; [simpl; lia|]. exact Hle.
    + right; right. exact Hin.
Qed.

(** X11: with positive spacing, tempo and resolution, the track of a
    non-empty mapping is generated and its length in ticks is the lead-in
    beat, the spacings of all entries but the last, one note length and the
    closing beat; the spacing of the last entry does not enter. *)
Theorem track_length_ignores_the_last_spacing
      (spacing_multiplier : PyFloat.float) (velocity bpm ticks_per_beat tempo : Z)
      (drum_mapping : list drum) (dts : list Z) (nl : Z) :
  PyFloat.gt_zero spacing_multiplier = true ->
  0 < bpm ->
  0 < ticks_per_beat ->
  Forall (fun d => PyFloat.gt_zero (base_duration d) = true) drum_mapping ->
  drum_mapping <> [] ->
  note_length_ticks bpm ticks_per_beat = Ok nl ->
  Forall2 (fun d dt => duration_ticks spacing_multiplier bpm ticks_per_beat
                                      (base_duration d) = Ok dt) drum_mapping dts ->
  exists track,
    final_track spacing_multiplier velocity bpm ticks_per_beat tempo drum_mapping = Ok track /\
    track_ticks track
    = ticks_per_beat + Zsum (removelast dts) + nl + ticks_per_beat.
Proof.
  intros Hs Hb Ht Hd Hne Hnl HF2.
  pose proof (note_length_ticks_nonneg _ _ _ Hb Ht Hnl) as Hnl0.
  pose proof (entries_nonneg _ _ _ _ _ Hs Hb Ht Hd HF2) as Hdts.
  pose proof (build_events_ok spacing_multiplier velocity bpm ticks_per_beat
                _ _ _ HF2 Hnl (lead_in_ticks ticks_per_beat) []) as Hbuild.
  cbn [app] in Hbuild.
  set (entries := entries_of drum_mapping dts) in *.
  set (events := layout velocity nl (lead_in_ticks ticks_per_beat) entries) in *.
  eexists. split; [exact (final_track_of_events _ _ _ _ tempo _ _ Hbuild)|].
  unfold track_ticks. rewrite !map_app, !Zsum_app, map_map.
  change (map (fun x => delta_time (note_msg x))) with (map msg_time).
  rewrite delta_messages_sum. cbn.
  set (sorted := sort_by event_key key_ltb events).
  assert (entries <> []) as Hne'.
  { unfold entries, entries_of. inversion HF2; subst; [now contradiction Hne|]. discriminate. }
  destruct (layout_latest velocity nl entries Hnl0 Hdts Hne' (lead_in_ticks ticks_per_beat))
    as [Hle Hin].
  fold events in Hle, Hin.
  assert (map snd entries = dts) as Hsnd
      by (apply entries_of_snd; eapply Forall2_length; eassumption).
  rewrite Hsnd in Hle, Hin. unfold lead_in_ticks in Hle, Hin.
  set (T := ticks_per_beat + Zsum (removelast dts) + nl) in *.
  pose proof (sort_by_perm event_key key_ltb events) as Hperm. fold sorted in Hperm.
  assert (end_tick sorted 0 = T) as ->; [|lia].
  apply Z.le_antisymm.
  - assert (sorted <> []) as Hsne.
    { intros E. rewrite E in Hperm. apply Permutation_sym, Permutation_nil in Hperm.
      rewrite Hperm in Hin. contradiction Hin. }
    assert (In (end_tick sorted 0) (map ev_tick sorted)) as Hend.
    { destruct sorted as [|x sorted']; [now contradiction Hsne|].
      change (end_tick (x :: sorted') 0) with (end_tick sorted' (ev_tick x)).
      cbn [map]. apply end_tick_In. }
    apply in_map_iff in Hend. destruct Hend as (y & <- & Hy).
    rewrite Forall_forall in Hle. apply Hle.
    eapply Permutation_in; [apply Permutation_sym; exact Hperm | exact Hy].
  - apply in_map_iff in Hin. destruct Hin as (y & <- & Hy).
    pose proof (end_tick_max sorted
                  (sort_by_sorted event_key key_ltb key_ltb_asym key_le_trans events) 0) as Hmax.
    rewrite Forall_forall in Hmax. apply Hmax.
    eapply Permutation_in; [exact Hperm | exact Hy].
Qed.

Lemma track_length_ignores_the_last_spacing_witness :
  exists track,
    final_track PyFloat.f1_0 127 120 480 500000 [kick; crash] = Ok track /\
    track_ticks track = 480 + Zsum (removelast [1920; 4800]) + 96 + 480.
Proof.
  assert (note_length_ticks 120 480 = Ok 96) as Hn by (vm_compute; reflexivity).
  assert (Forall2 (fun d dt => duration_ticks PyFloat.f1_0 120 480 (base_duration d) = Ok dt)
                  [kick; crash] [1920; 4800]) as Hd
      by (repeat constructor; vm_compute; reflexivity).
  assert (Forall (fun d => PyFloat.gt_zero (base_duration d) = true) [kick; crash]) as Hg
      by (repeat constructor).
  assert ([kick; crash] <> []) as Hne by discriminate.
  exact (track_length_ignores_the_last_spacing
           PyFloat.f1_0 127 120 480 500000 [kick; crash] [1920; 4800] 96
           eq_refl eq_refl eq_refl Hg Hne Hn Hd).
Defined.

(** ** Sums of half-integers are exact *)

Lemma iter_shr_1_exact (n : positive) :
  forall K : positive,
    iter_pos shr_1 n (Build_shr_record (Zpos (Pos.iter xO K n)) false false)
    = Build_shr_record (Zpos K) false false.
Proof.
  induction n as [n IH|n IH|]; intros K; cbn [iter_pos Pos.iter].
  - cbn [shr_1 orb]. rewrite IH, IH. reflexivity.
  - rewrite IH, IH. reflexivity.
  - reflexivity.
Qed.

Lemma Zdigits2_mul_pow2 (K : positive) (n : Z) :
  0 <= n -> Zdigits2 (Zpos K * 2 ^ n) = Zdigits2 (Zpos K) + n.
Proof.
  intros Hn.
  assert (0 < Zpos K * 2 ^ n) as Hpos by (apply Z.mul_pos_pos; [lia | apply Z.pow_pos_nonneg; lia]).
  destruct (Zpos K * 2 ^ n) as [|p|p] eqn:E; try lia.
  rewrite !Zdigits2_log2, <- E, Z.log2_mul_pow2 by lia. lia.
Qed.

(** A mantissa that is a 53-bit number times a power of two rounds to that
    number: nothing is lost. *)
Lemma binary_round_exact (M K : positive) (ez e' : Z) :
  Zpos M = Zpos K * 2 ^ (e' - ez) ->
  ez <= e' ->
  Zdigits2 (Zpos K) = 53 ->
  -1074 <= e' <= 971 ->
  binary_round PyFloat.prec PyFloat.emax false M ez = S754_finite false K e'.
Proof.
  intros HM Hle HK He.
  assert (Zdigits2 (Zpos M) = 53 + (e' - ez)) as HdM
      by (rewrite HM, Zdigits2_mul_pow2, HK by lia; reflexivity).
  unfold binary_round.
  change (Zpos (digits2_pos M)) with (Zdigits2 (Zpos M)).
  rewrite fexp_binary64, HdM.
  replace (Z.max (53 + (e' - ez) + ez - 53) (-1074)) with e' by lia.
  unfold shl_align.
  assert (shr_fexp PyFloat.prec PyFloat.emax (Zpos M) ez loc_Exact
          = (Build_shr_record (Zpos K) false false, e')) as Hshr.
  { unfold shr_fexp. rewrite fexp_binary64, HdM.
    replace (Z.max (53 + (e' - ez) + ez - 53) (-1074) - ez) with (e' - ez) by lia.
    cbn [shr_record_of_loc]. unfold shr.
    destruct (e' - ez) as [|p|p] eqn:E; try lia.
    - rewrite Z.pow_0_r, Z.mul_1_r in HM. inversion HM; subst. f_equal. lia.
    - rewrite <- iter_xO_pow2 in HM. inversion HM; subst M.
      rewrite iter_shr_1_exact. f_equal. lia. }
  assert (shr_fexp PyFloat.prec PyFloat.emax (Zpos K) e' loc_Exact
          = (Build_shr_record (Zpos K) false false, e')) as Hshr2.
  { unfold shr_fexp. rewrite fexp_binary64, HK.
    replace (Z.max (53 + e' - 53) (-1074) - e') with 0 by lia. reflexivity. }
  destruct (e' - ez) as [|p|p] eqn:E; try lia;
    unfold binary_round_aux; rewrite Hshr; cbn [shr_m loc_of_shr_record round_nearest_even];
    rewrite Hshr2; cbn [shr_m];
    replace (e' <=? PyFloat.emax - PyFloat.prec) with true
      by (symmetry; apply Z.leb_le; unfold PyFloat.emax, PyFloat.prec; lia);
    reflexivity.
Qed.

Lemma shl_align_value (m : positive) (e ez : Z) :
  ez <= e -> Zpos (fst (shl_align m e ez)) = Zpos m * 2 ^ (e - ez).
Proof.
  intros Hle. unfold shl_align.
  destruct (ez - e) as [|p|p] eqn:E; try lia; cbn [fst].
  - replace (e - ez) with 0 by lia. lia.
  - rewrite iter_xO_pow2. f_equal. f_equal. lia.
Qed.

Lemma is_half_digits (x : PyFloat.float) (a : Z) (m : positive) (e : Z) :
  0 < a ->
  e <= -1 -> Zpos m = a * 2 ^ (-1 - e) -> Zdigits2 (Zpos m) = 53 ->
  Zdigits2 a = 54 + e.
Proof.
  intros Ha He Hm Hd. destruct a as [|p|p]; try lia.
  rewrite Hm, Zdigits2_mul_pow2 in Hd by lia. lia.
Qed.

Lemma Zdigits2_mono (a b : Z) : 0 < a <= b -> Zdigits2 a <= Zdigits2 b.
Proof.
  intros [Ha Hab]. destruct a as [|p|p], b as [|q|q]; try lia.
  rewrite !Zdigits2_log2. pose proof (Z.log2_le_mono (Zpos p) (Zpos q) Hab). lia.
Qed.

Lemma add_half (x y : PyFloat.float) (a b : Z) :
  is_half x a -> is_half y b -> 0 < a -> 0 < b -> a + b < 2 ^ 53 ->
  is_half (PyFloat.add x y) (a + b).
Proof.
  intros (mx & ex & -> & Hex & Hmx & Hdx) (my & ey & -> & Hey & Hmy & Hdy) Ha Hb Hab.
  pose proof (is_half_digits (S754_finite false mx ex) a mx ex Ha Hex Hmx Hdx) as Hda.
  pose proof (is_half_digits (S754_finite false my ey) b my ey Hb Hey Hmy Hdy) as Hdb.
  set (p := Zdigits2 (a + b)).
  assert (p <= 53) as Hp by (apply Zdigits2_bound; lia).
  assert (Zdigits2 a <= p) as Hpa by (apply Zdigits2_mono; lia).
  assert (Zdigits2 b <= p) as Hpb by (apply Zdigits2_mono; lia).
  set (e' := p - 54).
  set (ez := Z.min ex ey).
  assert (0 < (a + b) * 2 ^ (-1 - e')) as HKpos
      by (apply Z.mul_pos_pos; [lia | apply Z.pow_pos_nonneg; lia]).
  destruct ((a + b) * 2 ^ (-1 - e')) as [|K|K] eqn:EK; try lia.
  assert (Zdigits2 (Zpos K) = 53) as HdK.
  { assert (exists q, a + b = Zpos q) as [q Eq]
        by (destruct (a + b) as [|q|q]; try lia; now exists q).
    rewrite <- EK, Eq, Zdigits2_mul_pow2 by lia.
    subst e' p. rewrite Eq. lia. }
  unfold PyFloat.add, SFadd. fold ez. cbn [cond_Zopp].
  set (sx := fst (shl_align mx ex ez)). set (sy := fst (shl_align my ey ez)).
  change (Zpos sx + Zpos sy) with (Zpos (sx + sy)).
  cbn [binary_normalize].
  assert (Zpos (sx + sy) = Zpos K * 2 ^ (e' - ez)) as HM.
  { rewrite Pos2Z.inj_add. unfold sx, sy. rewrite !shl_align_value by lia.
    rewrite Hmx, Hmy, <- EK.
    rewrite <- !Z.mul_assoc, <- !Z.pow_add_r by lia.
    replace (-1 - ex + (ex - ez)) with (-1 - ez) by lia.
    replace (-1 - ey + (ey - ez)) with (-1 - ez) by lia.
    replace (-1 - e' + (e' - ez)) with (-1 - ez) by lia. ring. }
  rewrite (binary_round_exact (sx + sy) K ez e' HM)
    by (try assumption; pose proof (Zdigits2_nonneg a); subst ez e'; clearbody p; lia).
  exists K, e'. split; [reflexivity|]. split; [subst e'; lia|]. split; [lia | exact HdK].
Qed.

Lemma is_half_value (x : PyFloat.float) (a : Z) :
  is_half x a ->
  PyFloat.is_finite x = true /\ (PyFloat.to_Q x == inject_Z a / 2)%Q.
Proof.
  intros (m & e & -> & He & Hm & _). split; [reflexivity|].
  destruct e as [|n|n]; try lia. cbn [PyFloat.to_Q cond_Zopp].
  unfold Qeq, Qdiv, Qmult, Qinv, inject_Z. cbn [Qnum Qden].
  assert (2 ^ Zpos n = 2 * 2 ^ (-1 - Zneg n)) as Hpow.
  { replace (Zpos n) with (Z.succ (-1 - Zneg n)) at 1 by lia. apply Z.pow_succ_r. lia. }
  rewrite Pos2Z.inj_pow, Hm, Hpow. generalize (2 ^ (-1 - Z.neg n)). intros P.
  change (Z.pos (1 * 2)) with 2. ring.
Qed.

(** ** The default settings *)

Section DefaultSettings.

(** What the default spacing 1.0, 120 bpm and 480 ticks per beat make of a
    drum whose duration is [h] half seconds. *)
Let default_entry (d : drum) (h : Z) : Prop :=
  4 <= h <= 10 /\
  PyFloat.mul (base_duration d) PyFloat.f1_0 = base_duration d /\
  is_half (base_duration d) h /\
  duration_ticks PyFloat.f1_0 120 480 (base_duration d) = Ok (480 * h).

Lemma classified_default (d : drum) :
  base_duration d = get_duration_for_sound (drum_name d) ->
  exists h, default_entry d h.
Proof.
  unfold default_entry. intros ->. unfold get_duration_for_sound.
  repeat match goal with
         | |- context [if ?c then _ else _] => destruct c
         end;
    match goal with
    | |- context [PyFloat.f5_0] => exists 10
    | |- context [PyFloat.f4_0] => exists 8
    | |- context [PyFloat.f3_0] => exists 6
    | |- context [PyFloat.f2_5] => exists 5
    | |- context [PyFloat.f2_0] => exists 4
    end;
    (split; [lia|]; split; [vm_compute; reflexivity|];
     split; [|vm_compute; reflexivity]);
    do 2 eexists; (split; [reflexivity|]); (split; [lia|]); split; reflexivity.
Qed.

Lemma default_entries (drums : list drum) :
  Forall (fun d => base_duration d = get_duration_for_sound (drum_name d)) drums ->
  exists hs, Forall2 default_entry drums hs.
Proof.
  induction 1 as [|d drums Hd HF [hs IH]]; [exists []; constructor|].
  destruct (classified_default d Hd) as [h Hh].
  exists (h :: hs). now constructor.
Qed.

Lemma start_seconds_half (drums : list drum) (hs : list Z) :
  Forall2 default_entry drums hs ->
  forall (lead : PyFloat.float) (a : Z) (i : nat),
    is_half lead a -> 0 < a ->
    a + 10 * Z.of_nat (List.length drums) < 2 ^ 53 ->
    is_half (start_seconds PyFloat.f1_0 lead drums i) (a + Zsum (firstn i hs)).
Proof.
  induction 1 as [|d h drums hs (Hh & Hmul & Hhalf & _) HF IH]; intros lead a i Hl Ha Hb.
  - destruct i; cbn; rewrite Z.add_0_r; exact Hl.
  - destruct i as [|i]; [cbn; rewrite Z.add_0_r; exact Hl|].
    unfold start_seconds. cbn [firstn map fold_left]. rewrite Hmul.
    change (fold_left PyFloat.add
              (map (fun d0 => PyFloat.mul (base_duration d0) PyFloat.f1_0) (firstn i drums))
              (PyFloat.add lead (base_duration d)))
      with (start_seconds PyFloat.f1_0 (PyFloat.add lead (base_duration d)) drums i).
    cbn [Zsum fold_right]. fold (Zsum (firstn i hs)).
    rewrite Z.add_assoc. cbn [List.length] in Hb. apply IH; [|lia|lia].
    apply add_half; try assumption; lia.
Qed.

Lemma default_ticks_sum (hs : list Z) (i : nat) :
  fold_right Z.add 0 (firstn i (map (Z.mul 480) hs)) = 480 * Zsum (firstn i hs).
Proof.
  unfold Zsum.
  revert i. induction hs as [|h hs IH]; intros [|i]; cbn [firstn map fold_right];
    try reflexivity.
  rewrite IH. lia.
Qed.

Lemma default_tick_seconds (a : Z) :
  (tick_seconds 120 480 (480 * a) == inject_Z a / 2)%Q.
Proof.
  unfold tick_seconds, seconds_per_tick. rewrite inject_Z_mult.
  change (60 / inject_Z (120 * 480))%Q with (60 # 57600)%Q.
  change (inject_Z 480) with (480 # 1)%Q.
  unfold Qdiv. change (/ 2)%Q with (1 # 2)%Q. lra.
Qed.

(** X12: with the default spacing 1.0, 120 bpm and 480 ticks per beat the
    track and the timing file agree exactly: for every entry of a mapping
    made by the loader, the start time written to the timing file is a
    finite float whose value is the time of the tick at which the entry's
    [note_on] is emitted. *)
Theorem default_settings_have_no_drift (velocity : Z) (drum_mapping : list drum) :
  Forall (fun d => base_duration d = get_duration_for_sound (drum_name d)) drum_mapping ->
  Z.of_nat (List.length drum_mapping) < 2 ^ 48 ->
  exists events records,
    sorted_events PyFloat.f1_0 velocity 120 480 drum_mapping = Ok events /\
    timing_records PyFloat.f1_0 120 drum_mapping = Ok records /\
    List.length records = List.length drum_mapping /\
    forall i r,
      nth_error records i = Some r ->
      exists t,
        nth_error events (2 * i) = Some (mk_event t note_on (tr_note r) velocity) /\
        PyFloat.is_finite (tr_start r) = true /\
        (PyFloat.to_Q (tr_start r) == tick_seconds 120 480 t)%Q.
Proof.
  intros Hcls Hlen.
  destruct (default_entries drum_mapping Hcls) as [hs HF].
  set (dts := map (Z.mul 480) hs).
  assert (Forall2 (fun d dt => duration_ticks PyFloat.f1_0 120 480 (base_duration d) = Ok dt)
                  drum_mapping dts) as Hd.
  { unfold dts. clear Hcls Hlen. induction HF as [|d h drums hs' (_ & _ & _ & Hdt) HF IH];
      cbn [map]; constructor; assumption. }
  assert (Forall (fun dt => 96 <= dt) dts) as Hdts.
  { unfold dts. clear Hcls Hlen Hd. induction HF as [|d h drums hs' (Hh & _) HF IH];
      cbn [map]; constructor; [lia | assumption]. }
  assert (note_length_ticks 120 480 = Ok 96) as Hnl by (vm_compute; reflexivity).
  pose proof (build_events_ok PyFloat.f1_0 velocity 120 480 _ _ _ Hd Hnl
                (lead_in_ticks 480) []) as Hbuild.
  cbn [app] in Hbuild.
  pose proof (Forall2_length Hd) as Hlen2.
  set (entries := entries_of drum_mapping dts) in *.
  assert (Forall (fun e => 96 <= snd e) entries) as Hent.
  { apply Forall_map with (f := snd) (P := fun dt => 96 <= dt).
    unfold entries. rewrite entries_of_snd by assumption. exact Hdts. }
  set (lead := S754_finite false 4503599627370496 (-53)).
  assert (timing_records PyFloat.f1_0 120 drum_mapping
          = Ok (timing_loop PyFloat.f1_0 drum_mapping 0 lead)) as Hrec.
  { unfold timing_records.
    assert (PyFloat.int_truediv 60 120 = Ok lead) as -> by (vm_compute; reflexivity).
    cbn [bind].
    assert (PyFloat.mul PyFloat.f1_0 lead = lead) as -> by (vm_compute; reflexivity).
    reflexivity. }
  assert (is_half lead 1) as Hlead.
  { exists 4503599627370496%positive, (-53). repeat split; try reflexivity. lia. }
  exists (layout velocity 96 (lead_in_ticks 480) entries),
         (timing_loop PyFloat.f1_0 drum_mapping 0 lead).
  split.
  { unfold sorted_events. rewrite Hbuild. cbn [bind]. f_equal.
    apply sort_by_sorted_id. apply layout_sorted; [lia | exact Hent]. }
  split; [exact Hrec|]. split; [apply timing_loop_length|].
  intros i r Hr.
  assert (i < List.length drum_mapping)%nat as Hi.
  { rewrite <- (timing_loop_length PyFloat.f1_0 drum_mapping 0 lead).
    apply nth_error_Some. rewrite Hr. discriminate. }
  destruct (nth_error drum_mapping i) as [d|] eqn:Ed;
    [|apply nth_error_None in Ed; lia].
  rewrite (timing_loop_nth PyFloat.f1_0 drum_mapping 0 lead i d Ed) in Hr.
  inversion Hr; subst r; clear Hr. cbn [tr_note tr_start].
  destruct (Forall2_nth_error _ _ _ Hd _ _ Ed) as (dt & Hdt & _).
  pose proof (entries_of_nth _ _ _ _ _ Ed Hdt) as He. fold entries in He.
  destruct (layout_nth velocity 96 entries (lead_in_ticks 480) i _ _ He) as [Hon _].
  eexists. split; [exact Hon|].
  rewrite <- firstn_map. unfold entries. rewrite entries_of_snd by assumption.
  unfold dts. rewrite default_ticks_sum. unfold lead_in_ticks.
  pose proof (start_seconds_half drum_mapping hs HF lead 1 i Hlead ltac:(lia)) as Hhalf.
  assert (1 + 10 * Z.of_nat (List.length drum_mapping) < 2 ^ 53) as Hb.
  { change (2 ^ 53) with (32 * 2 ^ 48). lia. }
  destruct (is_half_value _ _ (Hhalf Hb)) as [Hfin Hval].
  split; [exact Hfin|].
  rewrite Hval.
  replace (480 + 480 * Zsum (firstn i hs)) with (480 * (1 + Zsum (firstn i hs))) by lia.
  symmetry. apply default_tick_seconds.
Qed.

End DefaultSettings.

Lemma default_settings_have_no_drift_witness :
  exists events records,
    sorted_events PyFloat.f1_0 127 120 480 [kick; snare; crash] = Ok events /\
    timing_records PyFloat.f1_0 120 [kick; snare; crash] = Ok records /\
    List.length records = 3%nat /\
    forall i r,
      nth_error records i = Some r ->
      exists t,
        nth_error events (2 * i) = Some (mk_event t note_on (tr_note r) 127) /\
        PyFloat.is_finite (tr_start r) = true /\
        (PyFloat.to_Q (tr_start r) == tick_seconds 120 480 t)%Q.
Proof.
  assert (Forall (fun d => base_duration d = get_duration_for_sound (drum_name d))
                 [kick; snare; crash]) as Hc by (repeat constructor).
  assert (Z.of_nat (List.length [kick; snare; crash]) < 2 ^ 48) as Hl by (cbn; lia).
  exact (default_settings_have_no_drift 127 [kick; snare; crash] Hc Hl).
Defined.
